(** * Market-data-analyzer: price-path generator and analytics engine

    A shallow embedding of [src/data_fetcher.py] (class [MarketDataFetcher])
    and [src/analytics.py] (class [MarketAnalytics]), and the properties the
    specification states about them.

    Numbers.  The program computes on IEEE-754 binary64 values through numpy
    and pandas.  They are modelled by [float64]: a real number, one of the two
    infinities, or NaN.  The special values follow IEEE-754 (division by
    zero, invalid operations, NaN propagation, comparisons with NaN); finite
    arithmetic is exact, so rounding, overflow to infinity, underflow to zero
    and the sign of zero are outside the model. *)

From Stdlib Require Import String.
From Stdlib Require Import Reals Lra Lia ZArith Bool List Sorted.
Import ListNotations.

Open Scope R_scope.

(** ** Float values *)

Inductive float64 : Type :=
| NaN
| PInf
| NInf
| Fin (r : R).

Definition is_nan (x : float64) : bool :=
  match x with NaN => true | _ => false end.

Definition notna (x : float64) : bool := negb (is_nan x).

Definition is_finite (x : float64) : Prop :=
  match x with Fin _ => True | _ => False end.

Definition Rltb (a b : R) : bool := if Rlt_dec a b then true else false.
Definition Rleb (a b : R) : bool := if Rle_dec a b then true else false.
Definition Reqb (a b : R) : bool := if Req_dec_T a b then true else false.

Definition fneg (x : float64) : float64 :=
  match x with
  | NaN => NaN
  | PInf => NInf
  | NInf => PInf
  | Fin r => Fin (- r)
  end.

Definition fabs (x : float64) : float64 :=
  match x with
  | NaN => NaN
  | PInf | NInf => PInf
  | Fin r => Fin (Rabs r)
  end.

Definition fadd (x y : float64) : float64 :=
  match x, y with
  | NaN, _ | _, NaN => NaN
  | PInf, NInf | NInf, PInf => NaN
  | PInf, _ | _, PInf => PInf
  | NInf, _ | _, NInf => NInf
  | Fin a, Fin b => Fin (a + b)
  end.

Definition fsub (x y : float64) : float64 := fadd x (fneg y).

(** Sign of an infinite product or quotient: [inf_signed true] is [+inf]. *)
Definition inf_signed (positive : bool) : float64 :=
  if positive then PInf else NInf.

Definition fmul (x y : float64) : float64 :=
  match x, y with
  | NaN, _ | _, NaN => NaN
  | Fin a, Fin b => Fin (a * b)
  | PInf, PInf | NInf, NInf => PInf
  | PInf, NInf | NInf, PInf => NInf
  | PInf, Fin b | Fin b, PInf =>
      if Reqb b 0 then NaN else inf_signed (Rltb 0 b)
  | NInf, Fin b | Fin b, NInf =>
      if Reqb b 0 then NaN else inf_signed (Rltb b 0)
  end.

(** IEEE-754 division.  A finite nonzero value divided by zero is an
    infinity with the sign of the dividend (the zero divisor is taken as
    [+0.0]), [0/0] and [inf/inf] are NaN, and a finite value divided by an
    infinity is zero. *)
Definition fdiv (x y : float64) : float64 :=
  match x, y with
  | NaN, _ | _, NaN => NaN
  | Fin a, Fin b =>
      if Reqb b 0
      then (if Reqb a 0 then NaN else inf_signed (Rltb 0 a))
      else Fin (a / b)
  | Fin _, PInf | Fin _, NInf => Fin 0
  | PInf, Fin b => inf_signed (Rleb 0 b)
  | NInf, Fin b => inf_signed (Rltb b 0)
  | PInf, PInf | PInf, NInf | NInf, PInf | NInf, NInf => NaN
  end.

Definition fsqrt (x : float64) : float64 :=
  match x with
  | NaN | NInf => NaN
  | PInf => PInf
  | Fin r => if Rltb r 0 then NaN else Fin (sqrt r)
  end.

Definition fexp (x : float64) : float64 :=
  match x with
  | NaN => NaN
  | PInf => PInf
  | NInf => Fin 0
  | Fin r => Fin (exp r)
  end.

(** Comparisons: every comparison with NaN is false. *)
Definition fltb (x y : float64) : bool :=
  match x, y with
  | NaN, _ | _, NaN => false
  | _, NInf | PInf, _ => false
  | NInf, _ | _, PInf => true
  | Fin a, Fin b => Rltb a b
  end.

Definition fgtb (x y : float64) : bool := fltb y x.

Definition feqb (x y : float64) : bool :=
  match x, y with
  | PInf, PInf | NInf, NInf => true
  | Fin a, Fin b => Reqb a b
  | _, _ => false
  end.

Definition fleb (x y : float64) : bool := fltb x y || feqb x y.

(** [int] to [float64] conversion of a count. *)
Definition of_nat (n : nat) : float64 := Fin (INR n).

(** ** Floating-point exceptions raised by the arithmetic written in the source

    numpy reports a finite nonzero value divided by zero as "divide by zero"
    and [0/0] or [inf/inf] as "invalid value".  The divisions that appear in
    [analytics.py] itself are traced with a writer monad, so that a guard in
    front of a division is visible in the model: a guarded path leaves the
    trace empty.  (The divisions inside [nanmean], [nanvar] and the rolling
    kernels are by a count the library has already checked to be positive.) *)

Inductive fp_exception : Type :=
| DivideByZero
| InvalidValue.

Definition Traced (A : Type) : Type := (A * list fp_exception)%type.

Definition ret {A : Type} (a : A) : Traced A := (a, []).

Definition bind {A B : Type} (m : Traced A) (k : A -> Traced B) : Traced B :=
  let (a, e1) := m in
  let (b, e2) := k a in
  (b, e1 ++ e2).

Declare Scope traced_scope.
Delimit Scope traced_scope with traced.
Notation "x <- m ;; k" := (bind m (fun x => k))
  (at level 61, m at next level, right associativity) : traced_scope.

Definition value {A : Type} (m : Traced A) : A := fst m.
Definition raised {A : Type} (m : Traced A) : list fp_exception := snd m.

Definition fdiv_raises (x y : float64) : list fp_exception :=
  match x, y with
  | Fin a, Fin b =>
      if Reqb b 0
      then (if Reqb a 0 then [InvalidValue] else [DivideByZero])
      else []
  | PInf, PInf | PInf, NInf | NInf, PInf | NInf, NInf => [InvalidValue]
  | _, _ => []
  end.

Definition fdivT (x y : float64) : Traced float64 :=
  (fdiv x y, fdiv_raises x y).

(** ** Series: the values of a pandas [Series], in index order *)

Definition Series : Type := list float64.

Fixpoint map2 {A B C : Type} (f : A -> B -> C) (l : list A) (l' : list B)
  : list C :=
  match l, l' with
  | a :: t, b :: t' => f a b :: map2 f t t'
  | _, _ => []
  end.

(** Element-wise division of two aligned series, with its trace. *)
Fixpoint series_div (a b : Series) : Traced Series :=
  match a, b with
  | x :: t, y :: t' =>
      (q <- fdivT x y ;;
       r <- series_div t t' ;;
       ret (q :: r))%traced
  | _, _ => ret []
  end.

(** [Series.shift(1)]: every value moves one place down, the first is NaN. *)
Definition shift1 (s : Series) : Series :=
  match s with
  | [] => []
  | _ :: _ => NaN :: removelast s
  end.

(** [Series.ffill()]: a NaN takes the last valid value before it. *)
Fixpoint ffill_from (last : float64) (s : Series) : Series :=
  match s with
  | [] => []
  | x :: t =>
      if is_nan x then last :: ffill_from last t else x :: ffill_from x t
  end.

Definition ffill (s : Series) : Series := ffill_from NaN s.

(** [Series.pct_change()] with pandas' default [fill_method='pad']:
    [data / data.shift(1) - 1] on the forward-filled data. *)
Definition pct_change (s : Series) : Series :=
  let data := ffill s in
  map2 (fun x p => fsub (fdiv x p) (Fin 1)) data (shift1 data).

(** [Series.dropna()]. *)
Definition dropna (s : Series) : Series := filter notna s.

(** [Series.diff()]: [s - s.shift(1)]. *)
Definition diff (s : Series) : Series := map2 fsub s (shift1 s).

(** [Series.where(cond, other)] for a condition computed element-wise. *)
Definition where_ (cond : float64 -> bool) (other : float64) (s : Series)
  : Series :=
  map (fun x => if cond x then x else other) s.

Definition fsum (s : Series) : float64 := fold_left fadd s (Fin 0).

(** [nanops.nanmean]: NaN entries are skipped; no valid entry gives NaN. *)
Definition nanmean (s : Series) : float64 :=
  let obs := dropna s in
  let count := length obs in
  if (0 <? count)%nat then fdiv (fsum obs) (of_nat count) else NaN.

(** [nanops.nanvar] and [nanops.nanstd] with [ddof] delta degrees of
    freedom: NaN when the number of valid entries is at most [ddof]. *)
Definition nanvar (ddof : nat) (s : Series) : float64 :=
  let obs := dropna s in
  let count := length obs in
  if (count <=? ddof)%nat then NaN
  else
    let avg := fdiv (fsum obs) (of_nat count) in
    let sqr := map (fun x => fmul (fsub avg x) (fsub avg x)) obs in
    fdiv (fsum sqr) (of_nat (count - ddof)).

Definition nanstd (ddof : nat) (s : Series) : float64 :=
  fsqrt (nanvar ddof s).

(** [np.maximum] and [np.minimum] on two non-NaN values. *)
Definition fmax (x y : float64) : float64 := if fltb x y then y else x.
Definition fmin (x y : float64) : float64 := if fltb y x then y else x.

Fixpoint accumulate_from (f : float64 -> float64 -> float64) (acc : float64)
  (s : Series) : Series :=
  match s with
  | [] => []
  | x :: t => let acc' := f acc x in acc' :: accumulate_from f acc' t
  end.

(** [np.maximum.accumulate]. *)
Definition maximum_accumulate (s : Series) : Series :=
  match s with
  | [] => []
  | x :: t => x :: accumulate_from fmax x t
  end.

(** [Series.cummax()] ([nanops.na_accum_func]): NaN entries are replaced by
    [-inf] for the accumulation and restored afterwards. *)
Definition cummax (s : Series) : Series :=
  let vals := map (fun x => if is_nan x then NInf else x) s in
  map2 (fun x r => if is_nan x then NaN else r) s (maximum_accumulate vals).

(** [Series.min()]: the least valid entry, NaN when there is none. *)
Definition nanmin (s : Series) : float64 :=
  match dropna s with
  | [] => NaN
  | x :: t => fold_left fmin t x
  end.

Definition nanmax (s : Series) : float64 :=
  match dropna s with
  | [] => NaN
  | x :: t => fold_left fmax t x
  end.

(** *** Rolling windows

    [Series.rolling(window=w)] with the default [min_periods = w]: the window
    of index [i] holds the entries [i-w+1 .. i] that exist. *)
Definition window_at (s : Series) (w i : nat) : Series :=
  skipn (i + 1 - w) (firstn (i + 1) s).

Definition rolling (w : nat) (kernel : nat -> Series -> float64) (s : Series)
  : Series :=
  map (fun i => kernel w (window_at s w i)) (seq 0 (length s)).

(** [roll_mean]: defined when the window holds at least [minp] valid entries. *)
Definition roll_mean (minp : nat) (win : Series) : float64 :=
  let obs := dropna win in
  let nobs := length obs in
  if ((minp <=? nobs) && (0 <? nobs))%nat
  then fdiv (fsum obs) (of_nat nobs)
  else NaN.

(** [roll_var] with [ddof = 1], the default of [Rolling.std]. *)
Definition roll_var (minp : nat) (win : Series) : float64 :=
  let obs := dropna win in
  let nobs := length obs in
  if ((minp <=? nobs) && (1 <? nobs))%nat
  then
    let avg := fdiv (fsum obs) (of_nat nobs) in
    let ssqdm := fsum (map (fun x => fmul (fsub x avg) (fsub x avg)) obs) in
    fdiv ssqdm (of_nat (nobs - 1))
  else NaN.

(** [zsqrt]: square root, with 0 where the argument is negative. *)
Definition zsqrt (x : float64) : float64 :=
  if fltb x (Fin 0) then Fin 0 else fsqrt x.

Definition roll_std (minp : nat) (win : Series) : float64 :=
  zsqrt (roll_var minp win).

Definition rolling_mean (w : nat) (s : Series) : Series := rolling w roll_mean s.
Definition rolling_std (w : nat) (s : Series) : Series := rolling w roll_std s.

(** ** Tabular data *)

(** A [pandas.Timestamp], as microseconds since 1970-01-01 00:00:00. *)
Definition Timestamp : Type := Z.

Record DataFrame : Type := mkDataFrame {
  Date : list Timestamp;
  Symbol : list string;
  Open : Series;
  High : Series;
  Low : Series;
  Close : Series;
  Volume : list Z
}.

(** The price columns a [price_col] argument can name. *)
Inductive PriceCol : Type := ColOpen | ColHigh | ColLow | ColClose.

Definition column (df : DataFrame) (price_col : PriceCol) : Series :=
  match price_col with
  | ColOpen => Open df
  | ColHigh => High df
  | ColLow => Low df
  | ColClose => Close df
  end.

(** ** Outcome of a call: a returned value or a raised exception.

    [ValueError] is what numpy and pandas raise on a negative size or scale.
    [InvalidInput] is the error category of the specification; no code path
    of the source raises it. *)
Inductive exception : Type :=
| ValueError
| InvalidInput.

Inductive outcome (A : Type) : Type :=
| Returned (a : A)
| Raised (e : exception).

Arguments Returned {A} a.
Arguments Raised {A} e.

(** ** The summary report

    [Series.iloc[0]] and [Series.iloc[-1]] raise [IndexError] on an empty
    series ([None] here); [Series.min()] and [.max()] of the dates are [NaT]
    ([None]) on an empty column. *)

Definition iloc_first (s : Series) : option float64 :=
  match s with
  | [] => None
  | x :: _ => Some x
  end.

Definition iloc_last (s : Series) : option float64 :=
  match s with
  | [] => None
  | x :: t => Some (last t x)
  end.

Definition date_min (d : list Timestamp) : option Timestamp :=
  match d with
  | [] => None
  | x :: t => Some (fold_left Z.min t x)
  end.

Definition date_max (d : list Timestamp) : option Timestamp :=
  match d with
  | [] => None
  | x :: t => Some (fold_left Z.max t x)
  end.

(** The dictionary [generate_summary_report] builds, one field per key. *)
Record SummaryReport : Type := mkSummaryReport {
  report_symbol : string;
  period : string;
  total_days : nat;
  mean_price : float64;
  mean_daily_return : float64;
  volatility_daily : float64;
  volatility_annual : float64;
  sharpe_ratio : float64;
  max_drawdown : float64;
  min_price : float64;
  max_price : float64;
  total_return : float64
}.

Inductive report_result : Type :=
| ReportReturned (r : SummaryReport)
| ReportRaised (e : exception)
| ReportIndexError.

(** ** [analytics.py]: class [MarketAnalytics] *)

Module MarketAnalytics.

(** [df[price_col].pct_change().dropna()] *)
Definition compute_returns (df : DataFrame) (price_col : PriceCol) : Series :=
  dropna (pct_change (column df price_col)).

(** [float(np.mean(values))]: [np.mean] of a [Series] is [Series.mean()],
    which skips NaN and is NaN on an empty series; nothing is raised. *)
Definition compute_mean (values : Series) : outcome float64 :=
  Returned (nanmean values).

(** [np.std] of a [Series] is [Series.std(ddof=0)]. *)
Definition compute_volatility (returns : Series) (annualize : bool)
  : float64 :=
  let vol := nanstd 0 returns in
  if annualize then fmul vol (fsqrt (Fin 252)) else vol.

Definition compute_sharpe_ratio (returns : Series) (risk_free_rate : float64)
  (annualize : bool) : Traced float64 :=
  let mean_return := nanmean returns in
  let std_return := nanstd 0 returns in
  let mean_return :=
    if annualize then fmul mean_return (Fin 252) else mean_return in
  let std_return :=
    if annualize then fmul std_return (fsqrt (Fin 252)) else std_return in
  if feqb std_return (Fin 0) then ret (Fin 0)
  else fdivT (fsub mean_return risk_free_rate) std_return.

Definition compute_max_drawdown (df : DataFrame) (price_col : PriceCol)
  : Traced float64 :=
  let prices := column df price_col in
  let cumulative_max := cummax prices in
  (drawdown <- series_div (map2 fsub prices cumulative_max) cumulative_max ;;
   ret (nanmin drawdown))%traced.

Definition compute_moving_average (df : DataFrame) (window : nat)
  (price_col : PriceCol) : Series :=
  rolling_mean window (column df price_col).

(** Returns [(middle, upper, lower)]. *)
Definition compute_bollinger_bands (df : DataFrame) (window : nat)
  (num_std : float64) (price_col : PriceCol) : Series * Series * Series :=
  let middle := rolling_mean window (column df price_col) in
  let std := rolling_std window (column df price_col) in
  let upper := map2 fadd middle (map (fun s => fmul s num_std) std) in
  let lower := map2 fsub middle (map (fun s => fmul s num_std) std) in
  (middle, upper, lower).

(** The locals [delta], [gain] and [loss] of [compute_rsi]. *)
Definition rsi_delta (df : DataFrame) (price_col : PriceCol) : Series :=
  diff (column df price_col).

Definition rsi_gain (df : DataFrame) (window : nat) (price_col : PriceCol)
  : Series :=
  let delta := rsi_delta df price_col in
  rolling_mean window (where_ (fun d => fgtb d (Fin 0)) (Fin 0) delta).

Definition rsi_loss (df : DataFrame) (window : nat) (price_col : PriceCol)
  : Series :=
  let delta := rsi_delta df price_col in
  rolling_mean window
    (map fneg (where_ (fun d => fltb d (Fin 0)) (Fin 0) delta)).

Definition compute_rsi (df : DataFrame) (window : nat) (price_col : PriceCol)
  : Traced Series :=
  let gain := rsi_gain df window price_col in
  let loss := rsi_loss df window price_col in
  (rs <- series_div gain loss ;;
   q <- series_div (map (fun _ => Fin 100) rs) (map (fadd (Fin 1)) rs) ;;
   ret (map (fsub (Fin 100)) q))%traced.

(** [generate_summary_report]: the entries are evaluated in the order of
    the dictionary literal; [len(df)] is the number of rows.  [timestamp_str]
    is Python's [str] on a [Timestamp] or [NaT], which the f-string of
    [period] applies to the two dates. *)
Definition generate_summary_report (timestamp_str : option Timestamp -> string)
  (df : DataFrame) (symbol : string) : Traced report_result :=
  let returns := compute_returns df ColClose in
  match compute_mean (Close df), compute_mean returns with
  | Returned mean_price_, Returned mean_daily_return_ =>
      let volatility_daily_ := compute_volatility returns false in
      let volatility_annual_ := compute_volatility returns true in
      (sharpe_ratio_ <- compute_sharpe_ratio returns (Fin 0.02) true ;;
       max_drawdown_ <- compute_max_drawdown df ColClose ;;
       let min_price_ := nanmin (Close df) in
       let max_price_ := nanmax (Close df) in
       match iloc_last (Close df), iloc_first (Close df) with
       | Some last_, Some first_ =>
           q <- fdivT last_ first_ ;;
           ret (ReportReturned
                  (mkSummaryReport
                     symbol
                     (timestamp_str (date_min (Date df)) ++ " to "
                      ++ timestamp_str (date_max (Date df)))%string
                     (length (Close df))
                     mean_price_ mean_daily_return_
                     volatility_daily_ volatility_annual_
                     sharpe_ratio_ max_drawdown_ min_price_ max_price_
                     (fmul (fsub q (Fin 1)) (Fin 100))))
       | _, _ => ret ReportIndexError
       end)%traced
  | Raised e, _ => ret (ReportRaised e)
  | _, Raised e => ret (ReportRaised e)
  end.

End MarketAnalytics.

(** A frame whose only populated column is [Close]. *)
Definition close_frame (close : Series) : DataFrame :=
  mkDataFrame [] [] [] [] [] close [].

Definition finite (l : list R) : Series := map Fin l.

(** ** [data_fetcher.py]: class [MarketDataFetcher] *)

(** *** Business-day calendar

    [pd.date_range(start, periods, freq='B')]: the start rolls forward to
    the next business day (its time of day is kept), and every further date
    is the next business day.  1970-01-01 was a Thursday; Monday is 0. *)

Definition us_per_day : Z := 86400000000.

Definition weekday (t : Timestamp) : Z := ((t / us_per_day) + 3) mod 7.

Definition rollforward (t : Timestamp) : Timestamp :=
  if (weekday t =? 5)%Z then (t + 2 * us_per_day)%Z
  else if (weekday t =? 6)%Z then (t + us_per_day)%Z
  else t.

Definition next_business_day (t : Timestamp) : Timestamp :=
  if (weekday t =? 4)%Z then (t + 3 * us_per_day)%Z
  else (t + us_per_day)%Z.

Fixpoint business_days (n : nat) (t : Timestamp) : list Timestamp :=
  match n with
  | O => []
  | S n' => t :: business_days n' (next_business_day t)
  end.

Definition date_range (start : Timestamp) (periods : Z) : list Timestamp :=
  business_days (Z.to_nat periods) (rollforward start).

Definition is_business_day (t : Timestamp) : Prop := (weekday t < 5)%Z.

(** *** The random stream

    numpy's global [RandomState] is abstract: a state type, the seeding
    function and the three primitive draws the source uses.  Every property
    below holds for any such generator. *)

Record RandomSource : Type := mkRandomSource {
  rng_state : Type;
  (** [np.random.seed(seed)] *)
  seed_state : Z -> rng_state;
  (** one standard normal variate *)
  standard_normal : rng_state -> R * rng_state;
  (** one uniform variate of [[0, 1)] *)
  random_sample : rng_state -> R * rng_state;
  (** one integer of [[0, n)] *)
  random_below : Z -> rng_state -> Z * rng_state
}.

(** [n] successive draws of one primitive. *)
Fixpoint draws {S A : Type} (step : S -> A * S) (n : nat) (s : S)
  : list A * S :=
  match n with
  | O => ([], s)
  | S n' =>
      let (x, s1) := step s in
      let (xs, s2) := draws step n' s1 in
      (x :: xs, s2)
  end.

(** [np.cumsum]. *)
Definition cumsum (s : Series) : Series :=
  match s with
  | [] => []
  | x :: t => x :: accumulate_from fadd x t
  end.

Fixpoint map3 {A B C D : Type} (f : A -> B -> C -> D) (l1 : list A)
  (l2 : list B) (l3 : list C) : list D :=
  match l1, l2, l3 with
  | a :: t1, b :: t2, c :: t3 => f a b c :: map3 f t1 t2 t3
  | _, _, _ => []
  end.

(** [df[[c1, c2, c3]].max(axis=1)] and [.min(axis=1)]: row-wise, NaN skipped. *)
Definition row_max3 (c1 c2 c3 : Series) : Series :=
  map3 (fun x y z => nanmax [x; y; z]) c1 c2 c3.

Definition row_min3 (c1 c2 c3 : Series) : Series :=
  map3 (fun x y z => nanmin [x; y; z]) c1 c2 c3.

(** A Python [dict] with string keys: insertion order is kept, and
    assigning to a key that is present replaces its value in place. *)
Fixpoint dict_set {V : Type} (k : string) (v : V) (d : list (string * V))
  : list (string * V) :=
  match d with
  | [] => [(k, v)]
  | (k', v') :: t =>
      if String.eqb k k' then (k, v) :: t else (k', v') :: dict_set k v t
  end.

Section Fetcher.

Variable G : RandomSource.

(** The world a call runs in: the state of the global random stream and the
    number of times the wall clock has been read.  The clock itself is an
    input: [clock k] is what the [k]-th call of [datetime.now()] returns. *)
Record world : Type := mkWorld {
  rng : rng_state G;
  clock_reads : nat
}.

Definition Gen (A : Type) : Type := world -> outcome A * world.

Definition gret {A : Type} (a : A) : Gen A := fun w => (Returned a, w).

Definition raise {A : Type} (e : exception) : Gen A := fun w => (Raised e, w).

Definition gbind {A B : Type} (m : Gen A) (k : A -> Gen B) : Gen B :=
  fun w =>
    match m w with
    | (Returned a, w') => k a w'
    | (Raised e, w') => (Raised e, w')
    end.

Declare Scope gen_scope.
Delimit Scope gen_scope with gen.
Notation "x <- m ;; k" := (gbind m (fun x => k))
  (at level 61, m at next level, right associativity) : gen_scope.

(** [datetime.now()] *)
Definition datetime_now (clock : nat -> Timestamp) : Gen Timestamp :=
  fun w => (Returned (clock (clock_reads w)),
            mkWorld (rng w) (S (clock_reads w))).

(** Run a draw of the random stream inside the world. *)
Definition with_rng {A : Type} (f : rng_state G -> A * rng_state G) : Gen A :=
  fun w => let (a, s) := f (rng w) in (Returned a, mkWorld s (clock_reads w)).

(** [np.random.normal(loc, scale, size)]: [ValueError] on a negative scale
    or size, raised before anything is drawn. *)
Definition random_normal (loc scale : R) (size : Z) : Gen Series :=
  if (size <? 0)%Z || Rltb scale 0 then raise ValueError
  else
    (zs <- with_rng (draws (standard_normal G) (Z.to_nat size)) ;;
     gret (map (fun z => fadd (Fin loc) (fmul (Fin scale) (Fin z))) zs))%gen.

(** [np.random.uniform(low, high, size)] *)
Definition random_uniform (low high : R) (size : Z) : Gen Series :=
  if (size <? 0)%Z then raise ValueError
  else
    (us <- with_rng (draws (random_sample G) (Z.to_nat size)) ;;
     gret (map (fun u => fadd (Fin low) (fmul (Fin (high - low)) (Fin u)))
               us))%gen.

(** [np.random.uniform(low, high)]: one value. *)
Definition random_uniform1 (low high : R) : Gen R :=
  (u <- with_rng (random_sample G) ;;
   gret (low + (high - low) * u))%gen.

(** [np.random.randint(low, high, size)] *)
Definition random_randint (low high : Z) (size : Z) : Gen (list Z) :=
  if (size <? 0)%Z || (high <=? low)%Z then raise ValueError
  else
    (ks <- with_rng (draws (random_below G (high - low)) (Z.to_nat size)) ;;
     gret (map (fun k => (low + k)%Z) ks))%gen.

(** [MarketDataFetcher.__init__]: [np.random.seed(seed)], which accepts the
    seeds of [[0, 2**32)] only. *)
Definition init (seed : Z) : outcome world :=
  if ((0 <=? seed) && (seed <? 2 ^ 32))%Z
  then Returned (mkWorld (seed_state G seed) 0)
  else Raised ValueError.

(** [generate_stock_prices].  A negative [days] raises [ValueError] (in
    [pd.date_range] or at the latest in [np.random.normal]) after the clock
    has been read and before any variate is drawn. *)
Definition generate_stock_prices (clock : nat -> Timestamp) (symbol : string)
  (days : Z) (initial_price drift volatility : R) : Gen DataFrame :=
  (now <- datetime_now clock ;;
   let start_date := (now - days * us_per_day)%Z in
   let dates := date_range start_date days in
   returns <- random_normal drift volatility days ;;
   let prices := map (fun c => fmul (Fin initial_price) (fexp c))
                     (cumsum returns) in
   u_open <- random_uniform (-0.005) 0.005 days ;;
   u_high <- random_uniform 0 0.01 days ;;
   u_low <- random_uniform 0 0.01 days ;;
   volume <- random_randint 1000000 10000000 days ;;
   let open_ := map2 fmul prices (map (fadd (Fin 1)) u_open) in
   let high := map2 fmul prices (map (fun u => fadd (Fin 1) (fabs u)) u_high) in
   let low := map2 fmul prices (map (fun u => fsub (Fin 1) (fabs u)) u_low) in
   let close := prices in
   let high' := row_max3 open_ high close in
   let low' := row_min3 open_ low close in
   gret (mkDataFrame dates (repeat symbol (Z.to_nat days))
                     open_ high' low' close volume))%gen.

(** [generate_multiple_stocks]: the loop over [symbols], accumulating the
    result dictionary [data]. *)
Fixpoint generate_multiple_stocks_loop (clock : nat -> Timestamp)
  (symbols : list string) (days : Z) (data : list (string * DataFrame))
  : Gen (list (string * DataFrame)) :=
  match symbols with
  | [] => gret data
  | symbol :: rest =>
      (initial_price <- random_uniform1 50 200 ;;
       drift <- random_uniform1 (-0.0005) 0.001 ;;
       volatility <- random_uniform1 0.01 0.03 ;;
       df <- generate_stock_prices clock symbol days
                                   initial_price drift volatility ;;
       generate_multiple_stocks_loop clock rest days
                                     (dict_set symbol df data))%gen
  end.

Definition generate_multiple_stocks (clock : nat -> Timestamp)
  (symbols : list string) (days : Z) : Gen (list (string * DataFrame)) :=
  generate_multiple_stocks_loop clock symbols days [].

(** *** A run of the generator: one fetcher, then a sequence of calls *)

Inductive call : Type :=
| CallGenerate (symbol : string) (days : Z)
               (initial_price drift volatility : R)
| CallGenerateMultiple (symbols : list string) (days : Z).

Inductive reply : Type :=
| ReplyFrame (o : outcome DataFrame)
| ReplyDict (o : outcome (list (string * DataFrame))).

Definition perform (clock : nat -> Timestamp) (c : call) (w : world)
  : reply * world :=
  match c with
  | CallGenerate symbol days initial_price drift volatility =>
      let (o, w') :=
        generate_stock_prices clock symbol days initial_price drift volatility w
      in (ReplyFrame o, w')
  | CallGenerateMultiple symbols days =>
      let (o, w') := generate_multiple_stocks clock symbols days w in
      (ReplyDict o, w')
  end.

(** A call that raises leaves the fetcher usable: its caller sees the
    exception and the next call continues from the world it left. *)
Fixpoint perform_all (clock : nat -> Timestamp) (calls : list call) (w : world)
  : list reply :=
  match calls with
  | [] => []
  | c :: rest =>
      let (r, w') := perform clock c w in
      r :: perform_all clock rest w'
  end.

Definition run (seed : Z) (clock : nat -> Timestamp) (calls : list call)
  : outcome (list reply) :=
  match init seed with
  | Returned w => Returned (perform_all clock calls w)
  | Raised e => Raised e
  end.

End Fetcher.

Arguments mkWorld {G} rng clock_reads.
Arguments rng {G} w.
Arguments clock_reads {G} w.

(** *** Erasing the [Date] column, to compare what does not come from the
    clock *)

Definition without_dates (df : DataFrame) : DataFrame :=
  mkDataFrame [] (Symbol df) (Open df) (High df) (Low df) (Close df)
              (Volume df).

Definition dict_without_dates (d : list (string * DataFrame))
  : list (string * DataFrame) :=
  map (fun kv => (fst kv, without_dates (snd kv))) d.

Definition outcome_map {A B : Type} (f : A -> B) (o : outcome A) : outcome B :=
  match o with
  | Returned a => Returned (f a)
  | Raised e => Raised e
  end.

Definition reply_without_dates (r : reply) : reply :=
  match r with
  | ReplyFrame o => ReplyFrame (outcome_map without_dates o)
  | ReplyDict o => ReplyDict (outcome_map dict_without_dates o)
  end.

(** *** A concrete random source for examples: a linear congruential
    stream on integers *)

Definition lcg_next (s : Z) : Z := ((1103515245 * s + 12345) mod 2147483648)%Z.

Definition lcg_source : RandomSource :=
  mkRandomSource Z
    (fun seed => seed)
    (fun s => (IZR (lcg_next s mod 2001 - 1000) / 500, lcg_next s))
    (fun s => (IZR (lcg_next s) / 2147483648, lcg_next s))
    (fun n s => ((lcg_next s mod n)%Z, lcg_next s)).

(** ** Reference definitions over the reals

    The quantities the specification names (returns, standard deviations,
    prefix maxima, drawdowns, windows, gains and losses, the columns of a
    generated frame), written directly on lists of real numbers.  The
    properties below relate the code to them. *)

(** The returns of a price list, written from the specification:
    [r[i] = close[i]/close[i-1] - 1] for the source positions [1 .. n-1]. *)
Definition returns_spec (close : list R) : list R :=
  map (fun i => nth i close 0 / nth (i - 1) close 0 - 1)
      (seq 1 (length close - 1)).

Definition Rsum (l : list R) : R := fold_right Rplus 0 l.

Definition Rmean (l : list R) : R := Rsum l / INR (length l).

Definition sum_sq_dev (l : list R) : R :=
  Rsum (map (fun x => (x - Rmean l) * (x - Rmean l)) l).

(** Population standard deviation: divisor [n]. *)
Definition population_std (l : list R) : R :=
  sqrt (sum_sq_dev l / INR (length l)).

(** Sample standard deviation: divisor [n - 1]. *)
Definition sample_std (l : list R) : R :=
  sqrt (sum_sq_dev l / INR (length l - 1)).

(** Product of a list of reals. *)
Definition Rprod (l : list R) : R := fold_right Rmult 1 l.

(** Written from the specification: the prefix maximum up to and including
    index [i], the drawdown at [i], and the least drawdown. *)
Definition Rmaximum (l : list R) : R :=
  match l with
  | [] => 0
  | x :: t => fold_left Rmax t x
  end.

Definition Rminimum (l : list R) : R :=
  match l with
  | [] => 0
  | x :: t => fold_left Rmin t x
  end.

Definition prefix_max (close : list R) (i : nat) : R :=
  Rmaximum (firstn (S i) close).

Definition drawdown_at (close : list R) (i : nat) : R :=
  (nth i close 0 - prefix_max close i) / prefix_max close i.

Definition max_drawdown_spec (close : list R) : R :=
  Rminimum (map (drawdown_at close) (seq 0 (length close))).

Definition nondecreasing (close : list R) : Prop :=
  forall i j, (i <= j < length close)%nat -> nth i close 0 <= nth j close 0.

(** The running maximum as the code accumulates it, over the reals. *)
Fixpoint running_max_from (m : R) (l : list R) : list R :=
  match l with
  | [] => []
  | x :: t => Rmax m x :: running_max_from (Rmax m x) t
  end.

Definition running_max (l : list R) : list R :=
  match l with
  | [] => []
  | x :: t => x :: running_max_from x t
  end.

(** The trailing window of index [i]: the entries [i-w+1 .. i]. *)
Definition Rwindow (cs : list R) (w i : nat) : list R :=
  skipn (i + 1 - w) (firstn (i + 1) cs).

(** The daily changes [close[i+1] - close[i]], and the gain and loss series
    [compute_rsi] averages (their first entry stands for the undefined first
    change, which [where] replaces by 0). *)
Definition Rdiff (cs : list R) : list R := map2 Rminus (tl cs) cs.

Definition gains (cs : list R) : list R :=
  0 :: map (fun d => if Rltb 0 d then d else 0) (Rdiff cs).

Definition losses (cs : list R) : list R :=
  - 0 :: map (fun d => - (if Rltb d 0 then d else 0)) (Rdiff cs).

Definition strictly_increasing (cs : list R) : Prop :=
  forall i, (S i < length cs)%nat -> nth i cs 0 < nth (S i) cs 0.

Definition strictly_decreasing (cs : list R) : Prop :=
  forall i, (S i < length cs)%nat -> nth (S i) cs 0 < nth i cs 0.

(** The columns of a generated frame over the reals, from the draws. *)
Fixpoint Rcumsum_from (acc : R) (l : list R) : list R :=
  match l with
  | [] => []
  | x :: t => (acc + x) :: Rcumsum_from (acc + x) t
  end.

Definition Rcumsum (l : list R) : list R :=
  match l with
  | [] => []
  | x :: t => x :: Rcumsum_from x t
  end.

Definition close_of (initial_price drift volatility : R) (zs : list R)
  : list R :=
  map (fun v => initial_price * exp v)
      (Rcumsum (map (fun z => drift + volatility * z) zs)).

Definition open_of (close us : list R) : list R :=
  map2 Rmult close (map (fun u => 1 + (-0.005 + (0.005 - -0.005) * u)) us).

Definition high_of (close us : list R) : list R :=
  map2 Rmult close (map (fun u => 1 + Rabs (0 + (0.01 - 0) * u)) us).

Definition low_of (close us : list R) : list R :=
  map2 Rmult close (map (fun u => 1 - Rabs (0 + (0.01 - 0) * u)) us).

(** The OHLC invariant of one row. *)
Definition ohlc_invariant (o h l c : float64) : Prop :=
  fleb l (fmin o c) = true /\ fleb (fmax o c) h = true.

(** A stand-in for [str] on timestamps in the examples: it tells [NaT]
    apart and nothing else. *)
Definition example_timestamp_str (d : option Timestamp) : string :=
  match d with
  | None => "NaT"
  | Some _ => "date"
  end.

(** Two clocks one minute apart, and the world of a fetcher seeded with 42. *)
Definition example_clock : nat -> Timestamp :=
  fun _ => 1700000000000000%Z.

Definition example_clock_later : nat -> Timestamp :=
  fun _ => (1700000000000000 + 60000000)%Z.

Definition example_world : world lcg_source := mkWorld (G := lcg_source) 42%Z 0.

(** * Properties *)

(** ** Real comparisons as booleans *)

Lemma Reqb_refl (a : R) : Reqb a a = true.
Proof. unfold Reqb. destruct (Req_dec_T a a); congruence. Qed.

Lemma Reqb_eq (a b : R) : Reqb a b = true <-> a = b.
Proof. unfold Reqb. destruct (Req_dec_T a b); split; congruence. Qed.

Lemma Reqb_neq (a b : R) : a <> b -> Reqb a b = false.
Proof. unfold Reqb. destruct (Req_dec_T a b); congruence. Qed.

Lemma Rltb_lt (a b : R) : Rltb a b = true <-> a < b.
Proof. unfold Rltb. destruct (Rlt_dec a b); split; intros; congruence. Qed.

Lemma Rltb_true (a b : R) : a < b -> Rltb a b = true.
Proof. apply Rltb_lt. Qed.

Lemma Rltb_false (a b : R) : b <= a -> Rltb a b = false.
Proof. unfold Rltb. destruct (Rlt_dec a b); [lra | reflexivity]. Qed.

Lemma Rleb_true (a b : R) : a <= b -> Rleb a b = true.
Proof. unfold Rleb. destruct (Rle_dec a b); [reflexivity | lra]. Qed.

Lemma Rleb_false (a b : R) : b < a -> Rleb a b = false.
Proof. unfold Rleb. destruct (Rle_dec a b); [lra | reflexivity]. Qed.

(** ** Arithmetic on finite values *)

Lemma fsub_fin (a b : R) : fsub (Fin a) (Fin b) = Fin (a - b).
Proof. reflexivity. Qed.

Lemma fdiv_fin (a b : R) : b <> 0 -> fdiv (Fin a) (Fin b) = Fin (a / b).
Proof. intros Hb. simpl. now rewrite (Reqb_neq b 0 Hb). Qed.

Lemma fdiv_raises_fin (a b : R) : b <> 0 -> fdiv_raises (Fin a) (Fin b) = [].
Proof. intros Hb. simpl. now rewrite (Reqb_neq b 0 Hb). Qed.

Lemma fltb_fin (a b : R) : fltb (Fin a) (Fin b) = Rltb a b.
Proof. reflexivity. Qed.

Lemma fmax_fin (a b : R) : fmax (Fin a) (Fin b) = Fin (Rmax a b).
Proof.
  unfold fmax, Rmax. rewrite fltb_fin. unfold Rltb.
  destruct (Rlt_dec a b), (Rle_dec a b); try reflexivity; try lra.
  f_equal. lra.
Qed.

Lemma fmin_fin (a b : R) : fmin (Fin a) (Fin b) = Fin (Rmin a b).
Proof.
  unfold fmin, Rmin. rewrite fltb_fin. unfold Rltb.
  destruct (Rlt_dec b a), (Rle_dec a b); try reflexivity; lra.
Qed.

(** ** Lists of finite values *)

Lemma finite_length (l : list R) : length (finite l) = length l.
Proof. apply length_map. Qed.

Lemma finite_nth (l : list R) (i : nat) :
  (i < length l)%nat -> nth i (finite l) NaN = Fin (nth i l 0).
Proof.
  intros Hi. unfold finite.
  rewrite (nth_indep _ NaN (Fin 0)) by (now rewrite length_map).
  apply map_nth.
Qed.

Lemma dropna_finite (l : list R) : dropna (finite l) = finite l.
Proof.
  induction l as [|x l IH]; [reflexivity|].
  unfold dropna, finite in *. cbn [map filter notna is_nan negb].
  now rewrite IH.
Qed.

Lemma ffill_from_finite (last : float64) (l : list R) :
  ffill_from last (finite l) = finite l.
Proof.
  revert last. induction l as [|x l IH]; intros last; simpl; [reflexivity|].
  now rewrite IH.
Qed.

Lemma map2_removelast {A B C : Type} (f : A -> B -> C) (t : list A) (x : B)
  (u : list B) :
  length u = length t ->
  map2 f t (removelast (x :: u)) = map2 f t (x :: u).
Proof.
  revert x u. induction t as [|a t IH]; intros x u Hlen.
  - reflexivity.
  - destruct u as [|y u]; [discriminate|].
    change (removelast (x :: y :: u)) with (x :: removelast (y :: u)).
    simpl map2. f_equal. apply IH. simpl in Hlen. lia.
Qed.

Lemma map2_length {A B C : Type} (f : A -> B -> C) (l : list A) (l' : list B) :
  length (map2 f l l') = Nat.min (length l) (length l').
Proof.
  revert l'. induction l as [|a l IH]; intros [|b l']; simpl; auto.
Qed.

Lemma map2_nth {A B C : Type} (f : A -> B -> C) (l : list A) (l' : list B)
  (i : nat) (da : A) (db : B) (dc : C) :
  (i < length l)%nat -> (i < length l')%nat ->
  nth i (map2 f l l') dc = f (nth i l da) (nth i l' db).
Proof.
  revert l' i. induction l as [|a l IH]; intros [|b l'] i Hi Hi'; simpl in *;
    try lia.
  destruct i as [|i]; [reflexivity|]. apply IH; lia.
Qed.

(** ** C4: daily returns *)

Lemma pct_step_finite (x : R) (t : list R) :
  Forall (fun c => c <> 0) (x :: t) ->
  map2 (fun c p => fsub (fdiv c p) (Fin 1)) (finite t) (finite (x :: t))
  = finite (map (fun i => nth i (x :: t) 0 / nth (i - 1) (x :: t) 0 - 1)
                (seq 1 (length t))).
Proof.
  revert x. induction t as [|y t IH]; intros x Hnz; [reflexivity|].
  inversion Hnz as [|? ? Hx Ht]; subst.
  unfold finite in *. cbn [map map2 length seq].
  rewrite (fdiv_fin y x Hx), fsub_fin. f_equal.
  change (Fin y :: map Fin t) with (map Fin (y :: t)).
  rewrite (IH y Ht). f_equal.
  rewrite <- (seq_shift (length t) 1), map_map.
  apply map_ext_in. intros i Hi. apply in_seq in Hi.
  destruct i as [|i]; [lia|].
  replace (S (S i) - 1)%nat with (S i) by lia.
  replace (S i - 1)%nat with i by lia. reflexivity.
Qed.

Lemma pct_change_finite (x : R) (t : list R) :
  Forall (fun c => c <> 0) (x :: t) ->
  pct_change (finite (x :: t)) = NaN :: finite (returns_spec (x :: t)).
Proof.
  intros Hnz. unfold pct_change, ffill.
  rewrite ffill_from_finite.
  change (finite (x :: t)) with (Fin x :: finite t) at 1 2.
  unfold shift1. cbn [map2]. f_equal.
  rewrite map2_removelast by reflexivity.
  change (Fin x :: finite t) with (finite (x :: t)).
  rewrite (pct_step_finite x t Hnz). unfold returns_spec.
  replace (length (x :: t) - 1)%nat with (length t) by (simpl; lia).
  reflexivity.
Qed.

Lemma compute_returns_finite (df : DataFrame) (col : PriceCol) (cs : list R) :
  column df col = finite cs ->
  (1 <= length cs)%nat ->
  Forall (fun c => c <> 0) cs ->
  MarketAnalytics.compute_returns df col = finite (returns_spec cs).
Proof.
  intros Hcol Hlen Hnz. unfold MarketAnalytics.compute_returns.
  rewrite Hcol. destruct cs as [|x t]; [simpl in Hlen; lia|].
  rewrite (pct_change_finite x t Hnz).
  change (dropna (NaN :: ?l)) with (dropna l).
  apply dropna_finite.
Qed.

(** C4.  For a price column of [n >= 1] finite nonzero prices,
    [compute_returns] yields exactly [n - 1] values, and the value at output
    position [i - 1] is [close[i]/close[i-1] - 1] for every source position
    [1 <= i < n]: the first source point is dropped, not zero-filled. *)
Theorem compute_returns_drops_first (df : DataFrame) (col : PriceCol)
  (cs : list R) :
  column df col = finite cs ->
  (1 <= length cs)%nat ->
  Forall (fun c => c <> 0) cs ->
  length (MarketAnalytics.compute_returns df col) = (length cs - 1)%nat /\
  forall i, (1 <= i < length cs)%nat ->
    nth (i - 1) (MarketAnalytics.compute_returns df col) NaN
    = Fin (nth i cs 0 / nth (i - 1) cs 0 - 1).
Proof.
  intros Hcol Hlen Hnz.
  rewrite (compute_returns_finite df col cs Hcol Hlen Hnz).
  unfold finite, returns_spec. split.
  - now rewrite !length_map, length_seq.
  - intros i Hi.
    rewrite (nth_indep _ NaN (Fin 0)) by (rewrite !length_map, length_seq; lia).
    rewrite (map_nth Fin).
    rewrite (nth_indep _ 0 ((fun k => nth k cs 0 / nth (k - 1) cs 0 - 1) O))
      by (rewrite length_map, length_seq; lia).
    rewrite (map_nth (fun k => nth k cs 0 / nth (k - 1) cs 0 - 1)).
    rewrite seq_nth by lia.
    replace (1 + (i - 1))%nat with i by lia. reflexivity.
Qed.

Lemma compute_returns_drops_first_witness :
  length (MarketAnalytics.compute_returns
            (close_frame (finite [100; 110; 99])) ColClose) = 2%nat /\
  forall i, (1 <= i < 3)%nat ->
    nth (i - 1) (MarketAnalytics.compute_returns
                   (close_frame (finite [100; 110; 99])) ColClose) NaN
    = Fin (nth i [100; 110; 99] 0 / nth (i - 1) [100; 110; 99] 0 - 1).
Proof.
  apply (compute_returns_drops_first
           (close_frame (finite [100; 110; 99])) ColClose [100; 110; 99]).
  - reflexivity.
  - simpl; lia.
  - repeat constructor; lra.
Defined.

(** ** C6: mean of an empty series *)

(** The claim as the specification states it: [compute_mean] of an empty
    series raises [InvalidInput].  It does not hold. *)
Lemma compute_mean_empty_not_invalid_input :
  MarketAnalytics.compute_mean [] <> Raised InvalidInput.
Proof. discriminate. Qed.

(** C6, amended.  [compute_mean] of an empty series raises nothing: it
    returns NaN. *)
Theorem compute_mean_empty_returns_nan :
  MarketAnalytics.compute_mean [] = Returned NaN.
Proof. reflexivity. Qed.

(** [compute_mean] never raises, whatever the series. *)
Lemma compute_mean_total (values : Series) :
  exists m, MarketAnalytics.compute_mean values = Returned m.
Proof. now exists (nanmean values). Qed.

(** ** Sums, means and standard deviations over the reals *)

Lemma fold_fadd_finite (l : list R) (a : R) :
  fold_left fadd (finite l) (Fin a) = Fin (a + Rsum l).
Proof.
  revert a. induction l as [|x l IH]; intros a; simpl.
  - f_equal. lra.
  - unfold finite in IH. rewrite IH. f_equal. lra.
Qed.

Lemma fsum_finite (l : list R) : fsum (finite l) = Fin (Rsum l).
Proof. unfold fsum. rewrite fold_fadd_finite. f_equal. lra. Qed.

Lemma Rsum_sq_nonneg (f : R -> R) (l : list R) :
  0 <= Rsum (map (fun x => f x * f x) l).
Proof.
  induction l as [|x l IH]; simpl; [lra|].
  pose proof (Rle_0_sqr (f x)) as Hsq. unfold Rsqr in Hsq. lra.
Qed.

Lemma INR_length_pos {A : Type} (l : list A) : l <> [] -> 0 < INR (length l).
Proof.
  intros Hne. apply lt_0_INR. destruct l; [congruence | simpl; lia].
Qed.

Lemma nanmean_finite (l : list R) :
  l <> [] -> nanmean (finite l) = Fin (Rmean l).
Proof.
  intros Hne. unfold nanmean. rewrite dropna_finite, finite_length.
  pose proof (INR_length_pos l Hne) as Hpos.
  destruct l as [|x t]; [congruence|].
  change (0 <? length (x :: t))%nat with true. cbv iota.
  rewrite fsum_finite. unfold of_nat. rewrite fdiv_fin by lra. reflexivity.
Qed.

Lemma map_finite_fin (g : R -> R) (h : float64 -> float64) (l : list R) :
  (forall x, h (Fin x) = Fin (g x)) ->
  map h (finite l) = finite (map g l).
Proof.
  intros Hgh. unfold finite. rewrite !map_map.
  apply map_ext. intros x. apply Hgh.
Qed.

Lemma nanvar0_finite (l : list R) :
  l <> [] -> nanvar 0 (finite l) = Fin (sum_sq_dev l / INR (length l)).
Proof.
  intros Hne. unfold nanvar. rewrite dropna_finite, finite_length.
  pose proof (INR_length_pos l Hne) as Hpos.
  destruct l as [|x t]; [congruence|].
  change (length (x :: t) <=? 0)%nat with false. cbv iota zeta.
  rewrite fsum_finite. unfold of_nat. rewrite fdiv_fin by lra.
  fold (Rmean (x :: t)).
  rewrite (map_finite_fin
             (fun y => (Rmean (x :: t) - y) * (Rmean (x :: t) - y))) by reflexivity.
  rewrite fsum_finite, Nat.sub_0_r, fdiv_fin by lra.
  f_equal. f_equal. unfold sum_sq_dev. f_equal.
  apply map_ext. intros y. ring.
Qed.

Lemma nanstd0_finite (l : list R) :
  l <> [] -> nanstd 0 (finite l) = Fin (population_std l).
Proof.
  intros Hne. unfold nanstd. rewrite (nanvar0_finite l Hne).
  unfold fsqrt, population_std. rewrite Rltb_false; [reflexivity|].
  pose proof (INR_length_pos l Hne) as Hpos.
  pose proof (Rsum_sq_nonneg (fun x => x - Rmean l) l) as Hsum.
  unfold sum_sq_dev. apply Rmult_le_pos; [exact Hsum|].
  left. now apply Rinv_0_lt_compat.
Qed.

Lemma fsqrt_252 : fsqrt (Fin 252) = Fin (sqrt 252).
Proof. unfold fsqrt. rewrite Rltb_false by lra. reflexivity. Qed.

(** ** C7: volatility *)

(** The claim as the specification states it (sample standard deviation)
    fails on the returns [1, 3]: the code returns [1], the sample standard
    deviation is [sqrt 2]. *)
Lemma compute_volatility_not_sample_std :
  MarketAnalytics.compute_volatility (finite [1; 3]) false
  <> Fin (sample_std [1; 3]).
Proof.
  unfold MarketAnalytics.compute_volatility.
  rewrite nanstd0_finite by discriminate.
  intros Heq. injection Heq as Heq.
  assert (Hp : population_std [1; 3] = 1).
  { unfold population_std, sum_sq_dev, Rmean. simpl.
    replace (_ / _) with 1 by field. apply sqrt_1. }
  assert (Hs : sample_std [1; 3] = sqrt 2).
  { unfold sample_std, sum_sq_dev, Rmean. simpl. f_equal. field. }
  rewrite Hp, Hs in Heq.
  pose proof (sqrt_sqrt 2 ltac:(lra)) as Hsq.
  rewrite <- Heq in Hsq. lra.
Qed.

(** C7, amended.  For every non-empty series of finite returns,
    [compute_volatility] with [annualize = false] is the population standard
    deviation (divisor [n], numpy's [ddof = 0]), and with [annualize = true]
    it is that value times [sqrt 252]. *)
Theorem compute_volatility_population_std (l : list R) :
  l <> [] ->
  MarketAnalytics.compute_volatility (finite l) false
    = Fin (population_std l) /\
  MarketAnalytics.compute_volatility (finite l) true
    = Fin (population_std l * sqrt 252).
Proof.
  intros Hne. unfold MarketAnalytics.compute_volatility.
  rewrite (nanstd0_finite l Hne), fsqrt_252. split; reflexivity.
Qed.

Lemma compute_volatility_population_std_witness :
  MarketAnalytics.compute_volatility (finite [1; 3]) false
    = Fin (population_std [1; 3]) /\
  MarketAnalytics.compute_volatility (finite [1; 3]) true
    = Fin (population_std [1; 3] * sqrt 252).
Proof.
  apply (compute_volatility_population_std [1; 3]). discriminate.
Defined.

(** ** C2: Sharpe ratio of a zero-variance series *)


(** The returns of a constant price series are all zero. *)
Lemma returns_spec_constant (c : R) (n : nat) :
  c <> 0 -> returns_spec (repeat c (S n)) = repeat 0 n.
Proof.
  intros Hc. unfold returns_spec. rewrite repeat_length.
  replace (S n - 1)%nat with n by lia.
  assert (Hnth : forall k, (k < S n)%nat -> nth k (repeat c (S n)) 0 = c).
  { intros k Hk. apply nth_repeat_lt. exact Hk. }
  rewrite (map_ext_in _ (fun _ => 0)).
  - clear Hnth. generalize 1%nat.
    induction n as [|n IH]; intros s; simpl; [reflexivity|].
    f_equal. apply IH.
  - intros i Hi. apply in_seq in Hi.
    rewrite !Hnth by lia. field. exact Hc.
Qed.

Lemma Rsum_repeat_0 (n : nat) : Rsum (repeat 0 n) = 0.
Proof. induction n as [|n IH]; simpl; [reflexivity|]. rewrite IH. lra. Qed.

Lemma population_std_zeros (n : nat) : population_std (repeat 0 n) = 0.
Proof.
  unfold population_std, sum_sq_dev, Rmean.
  rewrite Rsum_repeat_0, repeat_length.
  replace (Rsum _) with 0.
  - unfold Rdiv. rewrite Rmult_0_l. apply sqrt_0.
  - symmetry. unfold Rdiv. rewrite Rmult_0_l.
    induction n as [|n IH]; simpl; [reflexivity|]. rewrite IH. lra.
Qed.

(** A constant price series has zero standard deviation of returns. *)
Lemma constant_prices_zero_std (df : DataFrame) (col : PriceCol) (c : R)
  (n : nat) :
  c <> 0 ->
  column df col = finite (repeat c (S (S n))) ->
  nanstd 0 (MarketAnalytics.compute_returns df col) = Fin 0.
Proof.
  intros Hc Hcol.
  rewrite (compute_returns_finite df col _ Hcol).
  - rewrite (returns_spec_constant c (S n) Hc).
    rewrite nanstd0_finite by discriminate.
    now rewrite population_std_zeros.
  - rewrite repeat_length. lia.
  - apply Forall_forall. intros x Hx. apply repeat_spec in Hx. now subst.
Qed.


(** ** C3: maximum drawdown *)

Lemma accumulate_fmax_finite (m : R) (t : list R) :
  accumulate_from fmax (Fin m) (finite t) = finite (running_max_from m t).
Proof.
  revert m. induction t as [|x t IH]; intros m; [reflexivity|].
  unfold finite in *. cbn [map accumulate_from running_max_from].
  rewrite fmax_fin. f_equal. apply IH.
Qed.

Lemma running_max_from_length (m : R) (t : list R) :
  length (running_max_from m t) = length t.
Proof. revert m. induction t as [|x t IH]; intros m; simpl; auto. Qed.

Lemma running_max_length (l : list R) : length (running_max l) = length l.
Proof. destruct l; simpl; [|rewrite running_max_from_length]; reflexivity. Qed.

Lemma map2_restore_finite (l r : list R) :
  length l = length r ->
  map2 (fun x v => if is_nan x then NaN else v) (finite l) (finite r)
  = finite r.
Proof.
  revert r. induction l as [|x l IH]; intros [|y r] Hlen; try discriminate;
    [reflexivity|].
  unfold finite in *. cbn [map map2 is_nan]. f_equal. apply IH.
  simpl in Hlen. lia.
Qed.

Lemma cummax_finite (l : list R) : cummax (finite l) = finite (running_max l).
Proof.
  unfold cummax.
  rewrite (map_finite_fin (fun x => x)) by reflexivity. rewrite map_id.
  replace (maximum_accumulate (finite l)) with (finite (running_max l)).
  - apply map2_restore_finite. now rewrite running_max_length.
  - destruct l as [|x t]; [reflexivity|].
    unfold maximum_accumulate, running_max, finite. cbn [map]. f_equal.
    symmetry. apply accumulate_fmax_finite.
Qed.

Lemma map2_finite (g : R -> R -> R) (h : float64 -> float64 -> float64)
  (a b : list R) :
  (forall x y, h (Fin x) (Fin y) = Fin (g x y)) ->
  map2 h (finite a) (finite b) = finite (map2 g a b).
Proof.
  intros Hgh. revert b. induction a as [|x a IH]; intros [|y b];
    try reflexivity.
  unfold finite in *. cbn [map map2]. rewrite Hgh. f_equal. apply IH.
Qed.

Lemma series_div_finite (a b : list R) :
  Forall (fun y => y <> 0) b ->
  series_div (finite a) (finite b) = (finite (map2 Rdiv a b), []).
Proof.
  intros Hnz. revert a. induction Hnz as [|y b Hy Hb IH]; intros [|x a];
    try reflexivity.
  unfold finite in *. cbn [map series_div map2].
  rewrite IH. unfold fdivT. rewrite fdiv_fin, fdiv_raises_fin by exact Hy.
  reflexivity.
Qed.

Lemma fold_fmin_finite (l : list R) (m : R) :
  fold_left fmin (finite l) (Fin m) = Fin (fold_left Rmin l m).
Proof.
  revert m. induction l as [|x l IH]; intros m; [reflexivity|].
  unfold finite in *. cbn [map fold_left]. rewrite fmin_fin. apply IH.
Qed.

Lemma nanmin_finite (l : list R) :
  l <> [] -> nanmin (finite l) = Fin (Rminimum l).
Proof.
  intros Hne. unfold nanmin. rewrite dropna_finite.
  destruct l as [|x t]; [congruence|]. apply fold_fmin_finite.
Qed.

(** *** Bounds of folded maxima and minima *)

Lemma fold_Rmax_ge_init (l : list R) (m : R) : m <= fold_left Rmax l m.
Proof.
  revert m. induction l as [|x l IH]; intros m; simpl; [lra|].
  eapply Rle_trans; [apply (Rmax_l m x) | apply IH].
Qed.

Lemma fold_Rmax_ge_In (l : list R) (m x : R) :
  In x l -> x <= fold_left Rmax l m.
Proof.
  revert m. induction l as [|y l IH]; intros m Hin; [contradiction|].
  simpl. destruct Hin as [-> | Hin].
  - eapply Rle_trans; [apply (Rmax_r m x) | apply fold_Rmax_ge_init].
  - now apply IH.
Qed.

Lemma fold_Rmax_le (l : list R) (m b : R) :
  m <= b -> (forall x, In x l -> x <= b) -> fold_left Rmax l m <= b.
Proof.
  revert m. induction l as [|y l IH]; intros m Hm Hall; simpl; [exact Hm|].
  apply IH.
  - apply Rmax_lub; [exact Hm | apply Hall; now left].
  - intros x Hx. apply Hall. now right.
Qed.

Lemma fold_Rmin_le_init (l : list R) (m : R) : fold_left Rmin l m <= m.
Proof.
  revert m. induction l as [|x l IH]; intros m; simpl; [lra|].
  eapply Rle_trans; [apply IH | apply Rmin_l].
Qed.

Lemma fold_Rmin_le_In (l : list R) (m x : R) :
  In x l -> fold_left Rmin l m <= x.
Proof.
  revert m. induction l as [|y l IH]; intros m Hin; [contradiction|].
  simpl. destruct Hin as [-> | Hin].
  - eapply Rle_trans; [apply fold_Rmin_le_init | apply Rmin_r].
  - now apply IH.
Qed.

Lemma fold_Rmin_ge (l : list R) (m b : R) :
  b <= m -> (forall x, In x l -> b <= x) -> b <= fold_left Rmin l m.
Proof.
  revert m. induction l as [|y l IH]; intros m Hm Hall; simpl; [exact Hm|].
  apply IH.
  - apply Rmin_glb; [exact Hm | apply Hall; now left].
  - intros x Hx. apply Hall. now right.
Qed.

Lemma Rminimum_le_In (l : list R) (x : R) : In x l -> Rminimum l <= x.
Proof.
  destruct l as [|y l]; [contradiction|]. intros [-> | Hin]; simpl.
  - apply fold_Rmin_le_init.
  - now apply fold_Rmin_le_In.
Qed.

Lemma Rminimum_ge (l : list R) (b : R) :
  l <> [] -> (forall x, In x l -> b <= x) -> b <= Rminimum l.
Proof.
  destruct l as [|y l]; [congruence|]. intros _ Hall. simpl.
  apply fold_Rmin_ge; [apply Hall; now left|].
  intros x Hx. apply Hall. now right.
Qed.

Lemma In_firstn_nth (l : list R) (k : nat) (x : R) :
  In x (firstn k l) ->
  exists j, (j < k)%nat /\ (j < length l)%nat /\ nth j l 0 = x.
Proof.
  revert k. induction l as [|y l IH]; intros k Hin.
  - rewrite firstn_nil in Hin. contradiction.
  - destruct k as [|k]; [contradiction|]. simpl in Hin.
    destruct Hin as [-> | Hin].
    + exists O. simpl. repeat split; lia.
    + destruct (IH k Hin) as (j & Hjk & Hjl & Hnth).
      exists (S j). simpl. repeat split; try lia. exact Hnth.
Qed.

Lemma nth_In_firstn (l : list R) (k j : nat) :
  (j < k)%nat -> (j < length l)%nat -> In (nth j l 0) (firstn k l).
Proof.
  revert k j. induction l as [|y l IH]; intros k j Hjk Hjl; simpl in Hjl;
    [lia|].
  destruct k as [|k]; [lia|]. destruct j as [|j]; simpl; [now left|].
  right. apply IH; lia.
Qed.

Lemma Rmaximum_ge_In (l : list R) (x : R) : In x l -> x <= Rmaximum l.
Proof.
  destruct l as [|y l]; [contradiction|]. intros [-> | Hin]; simpl.
  - apply fold_Rmax_ge_init.
  - now apply fold_Rmax_ge_In.
Qed.

Lemma Rmaximum_le (l : list R) (b : R) :
  l <> [] -> (forall x, In x l -> x <= b) -> Rmaximum l <= b.
Proof.
  destruct l as [|y l]; [congruence|]. intros _ Hall. simpl.
  apply fold_Rmax_le; [apply Hall; now left|].
  intros x Hx. apply Hall. now right.
Qed.

Lemma prefix_max_ge (cs : list R) (i j : nat) :
  (j <= i < length cs)%nat -> nth j cs 0 <= prefix_max cs i.
Proof.
  intros Hij. unfold prefix_max. apply Rmaximum_ge_In.
  apply nth_In_firstn; lia.
Qed.

Lemma prefix_max_le (cs : list R) (i : nat) (b : R) :
  (i < length cs)%nat ->
  (forall j, (j <= i)%nat -> nth j cs 0 <= b) ->
  prefix_max cs i <= b.
Proof.
  intros Hi Hall. unfold prefix_max. apply Rmaximum_le.
  - destruct cs; [simpl in Hi; lia | discriminate].
  - intros x Hx. apply In_firstn_nth in Hx.
    destruct Hx as (j & Hjk & _ & <-). apply Hall. lia.
Qed.

Lemma running_max_from_nth (t : list R) (m : R) (i : nat) :
  (i < length t)%nat ->
  nth i (running_max_from m t) 0 = fold_left Rmax (firstn (S i) t) m.
Proof.
  revert m i. induction t as [|y t IH]; intros m i Hi; simpl in Hi; [lia|].
  destruct i as [|i]; [reflexivity|].
  cbn [running_max_from nth]. rewrite IH by lia. reflexivity.
Qed.

Lemma running_max_nth (cs : list R) (i : nat) :
  (i < length cs)%nat -> nth i (running_max cs) 0 = prefix_max cs i.
Proof.
  intros Hi. destruct cs as [|x t]; [simpl in Hi; lia|].
  destruct i as [|i]; [reflexivity|].
  cbn [running_max nth]. rewrite running_max_from_nth by (simpl in Hi; lia).
  reflexivity.
Qed.

Lemma prefix_max_pos (cs : list R) (i : nat) :
  Forall (fun c => 0 < c) cs -> (i < length cs)%nat -> 0 < prefix_max cs i.
Proof.
  intros Hpos Hi.
  apply Rlt_le_trans with (nth i cs 0).
  - rewrite Forall_forall in Hpos. apply Hpos. now apply nth_In.
  - apply prefix_max_ge. lia.
Qed.

Lemma running_max_nonzero (cs : list R) :
  Forall (fun c => 0 < c) cs -> Forall (fun y => y <> 0) (running_max cs).
Proof.
  intros Hpos. apply Forall_forall. intros y Hy.
  apply (In_nth _ _ 0) in Hy. destruct Hy as (i & Hi & <-).
  rewrite running_max_length in Hi. rewrite running_max_nth by exact Hi.
  pose proof (prefix_max_pos cs i Hpos Hi). lra.
Qed.

(** The drawdown series the code computes is the one the specification
    defines index by index. *)
Lemma drawdown_series_spec (cs : list R) :
  map2 Rdiv (map2 Rminus cs (running_max cs)) (running_max cs)
  = map (drawdown_at cs) (seq 0 (length cs)).
Proof.
  apply (nth_ext _ _ 0 (drawdown_at cs O)).
  - rewrite !map2_length, running_max_length, length_map, length_seq. lia.
  - intros i Hi.
    rewrite !map2_length, running_max_length in Hi.
    assert (Hi' : (i < length cs)%nat) by lia.
    rewrite (map2_nth Rdiv _ _ i 0 0 0)
      by (rewrite ?map2_length, running_max_length; lia).
    rewrite (map2_nth Rminus _ _ i 0 0 0)
      by (rewrite ?running_max_length; lia).
    rewrite running_max_nth by exact Hi'.
    rewrite (map_nth (drawdown_at cs)), seq_nth by exact Hi'.
    reflexivity.
Qed.

Lemma compute_max_drawdown_finite (df : DataFrame) (col : PriceCol)
  (cs : list R) :
  column df col = finite cs ->
  cs <> [] ->
  Forall (fun c => 0 < c) cs ->
  MarketAnalytics.compute_max_drawdown df col
  = (Fin (max_drawdown_spec cs), []).
Proof.
  intros Hcol Hne Hpos. unfold MarketAnalytics.compute_max_drawdown.
  rewrite Hcol, cummax_finite. cbv zeta.
  rewrite (map2_finite Rminus) by reflexivity.
  rewrite (series_div_finite _ _ (running_max_nonzero cs Hpos)).
  unfold bind, ret. cbn [app]. f_equal.
  rewrite drawdown_series_spec. apply nanmin_finite.
  destruct cs; [congruence | discriminate].
Qed.

Lemma drawdown_at_nonpos (cs : list R) (i : nat) :
  Forall (fun c => 0 < c) cs -> (i < length cs)%nat -> drawdown_at cs i <= 0.
Proof.
  intros Hpos Hi. unfold drawdown_at.
  pose proof (prefix_max_pos cs i Hpos Hi) as Hm.
  pose proof (prefix_max_ge cs i i ltac:(lia)) as Hge.
  pose proof (Rinv_0_lt_compat _ Hm) as Hinv.
  unfold Rdiv. nra.
Qed.

Lemma drawdown_at_zero (cs : list R) (i : nat) :
  Forall (fun c => 0 < c) cs -> (i < length cs)%nat ->
  drawdown_at cs i = 0 <-> nth i cs 0 = prefix_max cs i.
Proof.
  intros Hpos Hi. unfold drawdown_at.
  pose proof (prefix_max_pos cs i Hpos Hi) as Hm. split.
  - intros Hz. unfold Rdiv in Hz.
    apply Rmult_integral in Hz. destruct Hz as [Hz | Hz]; [lra|].
    pose proof (Rinv_0_lt_compat _ Hm). lra.
  - intros ->. unfold Rdiv. rewrite Rminus_diag. apply Rmult_0_l.
Qed.

Lemma max_drawdown_spec_nonpos (cs : list R) :
  cs <> [] -> Forall (fun c => 0 < c) cs -> max_drawdown_spec cs <= 0.
Proof.
  intros Hne Hpos. unfold max_drawdown_spec.
  assert (Hlen : (0 < length cs)%nat)
    by (destruct cs; [congruence | simpl; lia]).
  apply Rle_trans with (drawdown_at cs O).
  - apply Rminimum_le_In. apply in_map. apply in_seq. lia.
  - now apply drawdown_at_nonpos.
Qed.

Lemma max_drawdown_spec_zero (cs : list R) :
  cs <> [] -> Forall (fun c => 0 < c) cs ->
  max_drawdown_spec cs = 0 <-> nondecreasing cs.
Proof.
  intros Hne Hpos. split.
  - intros Hz.
    assert (Heq : forall i, (i < length cs)%nat ->
                            nth i cs 0 = prefix_max cs i).
    { intros i Hi. apply (drawdown_at_zero cs i Hpos Hi).
      apply Rle_antisym; [now apply drawdown_at_nonpos|].
      rewrite <- Hz. unfold max_drawdown_spec.
      apply Rminimum_le_In. apply in_map. apply in_seq. lia. }
    intros i j Hij. rewrite (Heq j) by lia. now apply prefix_max_ge.
  - intros Hmono. apply Rle_antisym; [now apply max_drawdown_spec_nonpos|].
    unfold max_drawdown_spec. apply Rminimum_ge.
    + destruct cs; [congruence | discriminate].
    + intros x Hx. apply in_map_iff in Hx. destruct Hx as (i & <- & Hi).
      apply in_seq in Hi.
      assert (Hi' : (i < length cs)%nat) by lia.
      right. symmetry. apply (drawdown_at_zero cs i Hpos Hi').
      apply Rle_antisym; [apply prefix_max_ge; lia|].
      apply prefix_max_le; [exact Hi'|].
      intros j Hj. apply Hmono. lia.
Qed.

(** C3.  For a non-empty column of positive finite prices,
    [compute_max_drawdown] returns the least value over [i] of
    [(close[i] - prefixMax[i]) / prefixMax[i]], the prefix maximum taken up
    to and including [i]; the result is at most 0 and it is 0 exactly when
    the prices never decrease. *)
Theorem compute_max_drawdown_correct (df : DataFrame) (col : PriceCol)
  (cs : list R) :
  column df col = finite cs ->
  cs <> [] ->
  Forall (fun c => 0 < c) cs ->
  value (MarketAnalytics.compute_max_drawdown df col)
    = Fin (max_drawdown_spec cs) /\
  max_drawdown_spec cs <= 0 /\
  (max_drawdown_spec cs = 0 <-> nondecreasing cs).
Proof.
  intros Hcol Hne Hpos.
  rewrite (compute_max_drawdown_finite df col cs Hcol Hne Hpos).
  split; [reflexivity|]. split.
  - now apply max_drawdown_spec_nonpos.
  - now apply max_drawdown_spec_zero.
Qed.

(** The scenario of the specification: the closes [100, 110, 105, 95, 120]
    have maximum drawdown [(95 - 110) / 110]. *)
Lemma max_drawdown_spec_scenario :
  max_drawdown_spec [100; 110; 105; 95; 120] = (95 - 110) / 110.
Proof.
  unfold max_drawdown_spec, drawdown_at, prefix_max, Rmaximum, Rminimum.
  cbn [length seq map firstn nth fold_left].
  repeat match goal with
         | |- context [Rmax ?a ?b] =>
             first [ rewrite (Rmax_left a b) by lra
                   | rewrite (Rmax_right a b) by lra ]
         end.
  repeat match goal with
         | |- context [Rmin ?a ?b] =>
             first [ rewrite (Rmin_left a b) by lra
                   | rewrite (Rmin_right a b) by lra ]
         end.
  reflexivity.
Qed.

Lemma compute_max_drawdown_correct_witness :
  value (MarketAnalytics.compute_max_drawdown
           (close_frame (finite [100; 110; 105; 95; 120])) ColClose)
    = Fin (max_drawdown_spec [100; 110; 105; 95; 120]) /\
  max_drawdown_spec [100; 110; 105; 95; 120] <= 0 /\
  (max_drawdown_spec [100; 110; 105; 95; 120] = 0
   <-> nondecreasing [100; 110; 105; 95; 120]).
Proof.
  apply (compute_max_drawdown_correct
           (close_frame (finite [100; 110; 105; 95; 120])) ColClose).
  - reflexivity.
  - discriminate.
  - repeat constructor; lra.
Defined.

(** ** Rolling windows over finite data *)

Lemma window_at_finite (cs : list R) (w i : nat) :
  window_at (finite cs) w i = finite (Rwindow cs w i).
Proof.
  unfold window_at, Rwindow, finite. now rewrite firstn_map, skipn_map.
Qed.

Lemma Rwindow_length (cs : list R) (w i : nat) :
  (1 <= w)%nat -> (w - 1 <= i < length cs)%nat ->
  length (Rwindow cs w i) = w.
Proof.
  intros Hw Hi. unfold Rwindow. rewrite length_skipn, length_firstn. lia.
Qed.

Lemma rolling_length (w : nat) (kernel : nat -> Series -> float64)
  (s : Series) :
  length (rolling w kernel s) = length s.
Proof. unfold rolling. now rewrite length_map, length_seq. Qed.

Lemma rolling_nth (w : nat) (kernel : nat -> Series -> float64) (s : Series)
  (i : nat) :
  (i < length s)%nat ->
  nth i (rolling w kernel s) NaN = kernel w (window_at s w i).
Proof.
  intros Hi. unfold rolling.
  rewrite (nth_indep _ NaN ((fun k => kernel w (window_at s w k)) O))
    by (rewrite length_map, length_seq; exact Hi).
  rewrite (map_nth (fun k => kernel w (window_at s w k))).
  now rewrite seq_nth.
Qed.

Lemma roll_mean_finite (win : list R) :
  win <> [] -> roll_mean (length win) (finite win) = Fin (Rmean win).
Proof.
  intros Hne. unfold roll_mean. rewrite dropna_finite, finite_length.
  pose proof (INR_length_pos win Hne) as Hpos.
  rewrite Nat.leb_refl.
  destruct win as [|x t]; [congruence|].
  change (0 <? length (x :: t))%nat with true. cbn [andb].
  rewrite fsum_finite. unfold of_nat. rewrite fdiv_fin by lra. reflexivity.
Qed.

Lemma sample_var_nonneg (win : list R) :
  (2 <= length win)%nat -> 0 <= sum_sq_dev win / INR (length win - 1).
Proof.
  intros Hlen.
  assert (Hpos : 0 < INR (length win - 1)) by (apply lt_0_INR; lia).
  pose proof (Rsum_sq_nonneg (fun x => x - Rmean win) win) as Hsum.
  pose proof (Rinv_0_lt_compat _ Hpos) as Hinv.
  unfold sum_sq_dev, Rdiv. nra.
Qed.

Lemma roll_std_finite (win : list R) :
  (2 <= length win)%nat ->
  roll_std (length win) (finite win) = Fin (sample_std win).
Proof.
  intros Hlen. unfold roll_std, roll_var.
  rewrite dropna_finite, finite_length, Nat.leb_refl.
  assert (Hne : win <> []) by (destruct win; [simpl in Hlen; lia | discriminate]).
  pose proof (INR_length_pos win Hne) as Hpos.
  assert (Hpos1 : 0 < INR (length win - 1)) by (apply lt_0_INR; lia).
  replace (1 <? length win)%nat with true
    by (symmetry; apply Nat.ltb_lt; lia).
  cbn [andb]. cbv zeta.
  rewrite fsum_finite. unfold of_nat. rewrite fdiv_fin by lra.
  fold (Rmean win).
  rewrite (map_finite_fin (fun x => (x - Rmean win) * (x - Rmean win)))
    by reflexivity.
  rewrite fsum_finite, fdiv_fin by lra.
  fold (sum_sq_dev win).
  pose proof (sample_var_nonneg win Hlen) as Hvar.
  unfold zsqrt, fsqrt. rewrite fltb_fin, Rltb_false by exact Hvar.
  reflexivity.
Qed.

Lemma sample_std_nonneg (win : list R) : 0 <= sample_std win.
Proof. unfold sample_std. apply sqrt_pos. Qed.

Lemma rolling_mean_at (cs : list R) (w i : nat) :
  (1 <= w)%nat -> (w - 1 <= i < length cs)%nat ->
  nth i (rolling_mean w (finite cs)) NaN = Fin (Rmean (Rwindow cs w i)).
Proof.
  intros Hw Hi. unfold rolling_mean.
  rewrite rolling_nth by (rewrite finite_length; lia).
  rewrite window_at_finite.
  pose proof (Rwindow_length cs w i Hw Hi) as Hlen.
  rewrite <- Hlen at 1. apply roll_mean_finite.
  destruct (Rwindow cs w i); [simpl in Hlen; lia | discriminate].
Qed.

Lemma rolling_std_at (cs : list R) (w i : nat) :
  (2 <= w)%nat -> (w - 1 <= i < length cs)%nat ->
  nth i (rolling_std w (finite cs)) NaN = Fin (sample_std (Rwindow cs w i)).
Proof.
  intros Hw Hi. unfold rolling_std.
  rewrite rolling_nth by (rewrite finite_length; lia).
  rewrite window_at_finite.
  pose proof (Rwindow_length cs w i ltac:(lia) Hi) as Hlen.
  rewrite <- Hlen at 1. apply roll_std_finite. lia.
Qed.

Lemma map_nth_lt {A B : Type} (f : A -> B) (l : list A) (i : nat) (da : A)
  (db : B) :
  (i < length l)%nat -> nth i (map f l) db = f (nth i l da).
Proof.
  intros Hi. rewrite (nth_indep _ db (f da)) by (now rewrite length_map).
  apply map_nth.
Qed.

(** ** C10: Bollinger Bands *)

(** The three bands and the rolling standard deviation at an index with a
    full window of at least two finite prices. *)
Lemma bollinger_bands_at (df : DataFrame) (col : PriceCol) (cs : list R)
  (w : nat) (k : R) (i : nat) :
  column df col = finite cs ->
  (2 <= w)%nat ->
  (w - 1 <= i < length cs)%nat ->
  let m := Rmean (Rwindow cs w i) in
  let s := sample_std (Rwindow cs w i) in
  let '(middle, upper, lower) :=
    MarketAnalytics.compute_bollinger_bands df w (Fin k) col in
  nth i middle NaN = Fin m /\
  nth i upper NaN = Fin (m + s * k) /\
  nth i lower NaN = Fin (m - s * k) /\
  nth i (rolling_std w (column df col)) NaN = Fin s.
Proof.
  intros Hcol Hw Hi m s. unfold MarketAnalytics.compute_bollinger_bands.
  rewrite Hcol.
  assert (Hm : nth i (rolling_mean w (finite cs)) NaN = Fin m)
    by (apply rolling_mean_at; lia).
  assert (Hs : nth i (rolling_std w (finite cs)) NaN = Fin s)
    by (apply rolling_std_at; lia).
  assert (Hlm : (i < length (rolling_mean w (finite cs)))%nat)
    by (unfold rolling_mean; rewrite rolling_length, finite_length; lia).
  assert (Hls : (i < length (rolling_std w (finite cs)))%nat)
    by (unfold rolling_std; rewrite rolling_length, finite_length; lia).
  assert (Hscaled :
    nth i (map (fun x => fmul x (Fin k)) (rolling_std w (finite cs))) NaN
    = Fin (s * k)).
  { rewrite (map_nth_lt _ _ i NaN) by exact Hls. now rewrite Hs. }
  repeat split; try assumption.
  - rewrite (map2_nth fadd _ _ i NaN NaN NaN)
      by (rewrite ?length_map; assumption).
    rewrite Hm, Hscaled. reflexivity.
  - rewrite (map2_nth fsub _ _ i NaN NaN NaN)
      by (rewrite ?length_map; assumption).
    rewrite Hm, Hscaled. reflexivity.
Qed.


Lemma fadd_nan_r (x : float64) : fadd x NaN = NaN.
Proof. destruct x; reflexivity. Qed.

(** With [window = 1] the rolling standard deviation (one observation,
    [ddof = 1]) is NaN, and so are the upper and lower bands, at every index;
    only the middle band is defined. *)
Lemma bollinger_bands_window_one (df : DataFrame) (col : PriceCol)
  (num_std : float64) (i : nat) :
  (i < length (column df col))%nat ->
  let '(middle, upper, lower) :=
    MarketAnalytics.compute_bollinger_bands df 1 num_std col in
  nth i upper NaN = NaN /\ nth i lower NaN = NaN.
Proof.
  intros Hi. unfold MarketAnalytics.compute_bollinger_bands.
  set (s := column df col) in *.
  assert (Hwin : (length (dropna (window_at s 1 i)) <= 1)%nat).
  { unfold dropna. eapply Nat.le_trans; [apply filter_length_le|].
    unfold window_at. rewrite length_skipn, length_firstn. lia. }
  assert (Hstd : nth i (rolling_std 1 s) NaN = NaN).
  { unfold rolling_std. rewrite rolling_nth by exact Hi.
    unfold roll_std, roll_var.
    replace (1 <? length (dropna (window_at s 1 i)))%nat with false
      by (symmetry; apply Nat.ltb_ge; exact Hwin).
    rewrite andb_false_r. reflexivity. }
  assert (Hlm : (i < length (rolling_mean 1 s))%nat)
    by (unfold rolling_mean; now rewrite rolling_length).
  assert (Hls : (i < length (rolling_std 1 s))%nat)
    by (unfold rolling_std; now rewrite rolling_length).
  assert (Hscaled :
    nth i (map (fun x => fmul x num_std) (rolling_std 1 s)) NaN = NaN).
  { rewrite (map_nth_lt _ _ i NaN) by exact Hls. now rewrite Hstd. }
  split.
  - rewrite (map2_nth fadd _ _ i NaN NaN NaN)
      by (rewrite ?length_map; assumption).
    rewrite Hscaled. apply fadd_nan_r.
  - rewrite (map2_nth fsub _ _ i NaN NaN NaN)
      by (rewrite ?length_map; assumption).
    rewrite Hscaled. unfold fsub. apply fadd_nan_r.
Qed.



(** ** C5: RSI when the average loss is zero *)

Lemma series_div_value (a b : Series) :
  value (series_div a b) = map2 fdiv a b.
Proof.
  revert b. induction a as [|x a IH]; intros [|y b]; try reflexivity.
  cbn [series_div map2]. unfold value, bind, fdivT in *.
  specialize (IH b). destruct (series_div a b) as [r e].
  simpl in *. now rewrite IH.
Qed.

Lemma series_div_raised_at (a b : Series) (i : nat) (e : fp_exception) :
  (i < length a)%nat -> (i < length b)%nat ->
  In e (fdiv_raises (nth i a NaN) (nth i b NaN)) ->
  In e (raised (series_div a b)).
Proof.
  revert b i. induction a as [|x a IH]; intros [|y b] i Ha Hb Hin;
    simpl in Ha, Hb; try lia.
  cbn [series_div]. unfold raised, bind, fdivT in *.
  specialize (IH b). destruct (series_div a b) as [r tr]. simpl in *.
  rewrite app_nil_r. apply in_or_app.
  destruct i as [|i]; [now left | right].
  apply (IH i); [lia | lia | exact Hin].
Qed.

Lemma bind_value {A B : Type} (m : Traced A) (k : A -> Traced B) :
  value (bind m k) = value (k (value m)).
Proof. unfold value, bind. destruct m as [a e]. simpl. now destruct (k a). Qed.

Lemma bind_raised {A B : Type} (m : Traced A) (k : A -> Traced B) :
  raised (bind m k) = raised m ++ raised (k (value m)).
Proof. unfold raised, value, bind. destruct m as [a e]. simpl. now destruct (k a). Qed.

Lemma removelast_cons_length {A : Type} (x : A) (t : list A) :
  length (removelast (x :: t)) = length t.
Proof.
  rewrite removelast_firstn_len, length_firstn. simpl. lia.
Qed.

Lemma diff_length (s : Series) : length (diff s) = length s.
Proof.
  unfold diff. rewrite map2_length. destruct s as [|x t]; [reflexivity|].
  unfold shift1. change (length (NaN :: ?l)) with (S (length l)).
  rewrite removelast_cons_length. simpl. lia.
Qed.

Lemma rsi_series_lengths (df : DataFrame) (w : nat) (col : PriceCol) :
  length (MarketAnalytics.rsi_gain df w col) = length (column df col) /\
  length (MarketAnalytics.rsi_loss df w col) = length (column df col).
Proof.
  pose proof diff_length as Hd.
  unfold MarketAnalytics.rsi_gain, MarketAnalytics.rsi_loss,
    MarketAnalytics.rsi_delta, rolling_mean, where_.
  rewrite !rolling_length, !length_map, Hd. split; reflexivity.
Qed.

(** The RSI value at an index, in terms of the average gain and loss there. *)
Lemma compute_rsi_at (df : DataFrame) (w : nat) (col : PriceCol) (i : nat) :
  (i < length (column df col))%nat ->
  nth i (value (MarketAnalytics.compute_rsi df w col)) NaN
  = fsub (Fin 100)
      (fdiv (Fin 100)
         (fadd (Fin 1)
            (fdiv (nth i (MarketAnalytics.rsi_gain df w col) NaN)
                  (nth i (MarketAnalytics.rsi_loss df w col) NaN)))).
Proof.
  intros Hi. unfold MarketAnalytics.compute_rsi. cbv zeta.
  destruct (rsi_series_lengths df w col) as [Hg Hl].
  set (gain := MarketAnalytics.rsi_gain df w col) in *.
  set (loss := MarketAnalytics.rsi_loss df w col) in *.
  rewrite !bind_value. unfold ret, value at 1. cbn [fst].
  rewrite !series_div_value.
  assert (Hrs : (i < length (map2 fdiv gain loss))%nat)
    by (rewrite map2_length; lia).
  rewrite (map_nth_lt _ _ i NaN)
    by (rewrite map2_length, !length_map; lia).
  rewrite (map2_nth fdiv _ _ i NaN NaN NaN) by (rewrite length_map; lia).
  rewrite (map_nth_lt _ _ i NaN) by exact Hrs.
  rewrite (map_nth_lt _ _ i NaN) by exact Hrs.
  rewrite (map2_nth fdiv _ _ i NaN NaN NaN) by lia.
  reflexivity.
Qed.

(** With a zero average loss and a positive average gain the quotient is
    [+inf] and the RSI is [100 - 100/(1 + inf) = 100]. *)
Lemma rsi_value_zero_loss (df : DataFrame) (w : nat) (col : PriceCol)
  (i : nat) (g : R) :
  (i < length (column df col))%nat ->
  nth i (MarketAnalytics.rsi_loss df w col) NaN = Fin 0 ->
  nth i (MarketAnalytics.rsi_gain df w col) NaN = Fin g ->
  0 < g ->
  nth i (value (MarketAnalytics.compute_rsi df w col)) NaN = Fin 100.
Proof.
  intros Hi Hloss Hgain Hg.
  rewrite (compute_rsi_at df w col i Hi), Hloss, Hgain.
  unfold fdiv at 2. rewrite Reqb_refl, Reqb_neq by lra.
  rewrite Rltb_true by exact Hg. cbn [inf_signed fadd fdiv fsub fneg].
  f_equal. lra.
Qed.

(** Under the same conditions the trace records the division by zero. *)
Lemma rsi_trace_zero_loss (df : DataFrame) (w : nat) (col : PriceCol)
  (i : nat) (g : R) :
  (i < length (column df col))%nat ->
  nth i (MarketAnalytics.rsi_loss df w col) NaN = Fin 0 ->
  nth i (MarketAnalytics.rsi_gain df w col) NaN = Fin g ->
  0 < g ->
  In DivideByZero (raised (MarketAnalytics.compute_rsi df w col)).
Proof.
  intros Hi Hloss Hgain Hg. unfold MarketAnalytics.compute_rsi. cbv zeta.
  destruct (rsi_series_lengths df w col) as [Hgl Hll].
  rewrite bind_raised. apply in_or_app. left.
  apply (series_div_raised_at _ _ i); try lia.
  rewrite Hloss, Hgain. simpl. rewrite Reqb_refl, Reqb_neq by lra.
  now left.
Qed.

(** When both averages are 0 (a flat window) the quotient is [0/0]: the
    RSI is NaN, not 100. *)
Lemma compute_rsi_flat_window (df : DataFrame) (w : nat) (col : PriceCol)
  (i : nat) :
  (i < length (column df col))%nat ->
  nth i (MarketAnalytics.rsi_loss df w col) NaN = Fin 0 ->
  nth i (MarketAnalytics.rsi_gain df w col) NaN = Fin 0 ->
  nth i (value (MarketAnalytics.compute_rsi df w col)) NaN = NaN.
Proof.
  intros Hi Hloss Hgain.
  rewrite (compute_rsi_at df w col i Hi), Hloss, Hgain.
  unfold fdiv at 2. rewrite !Reqb_refl. reflexivity.
Qed.

(** *** Gains and losses of finite prices *)

Lemma diff_finite (x : R) (t : list R) :
  diff (finite (x :: t)) = NaN :: finite (Rdiff (x :: t)).
Proof.
  unfold diff, shift1.
  change (finite (x :: t)) with (Fin x :: finite t).
  cbn [map2]. f_equal.
  rewrite map2_removelast by reflexivity.
  change (Fin x :: finite t) with (finite (x :: t)).
  now rewrite (map2_finite Rminus).
Qed.

Lemma rsi_gain_finite (df : DataFrame) (w : nat) (col : PriceCol)
  (cs : list R) :
  cs <> [] ->
  column df col = finite cs ->
  MarketAnalytics.rsi_gain df w col = rolling_mean w (finite (gains cs)).
Proof.
  intros Hne Hcol. destruct cs as [|x t]; [congruence|].
  unfold MarketAnalytics.rsi_gain, MarketAnalytics.rsi_delta.
  rewrite Hcol, diff_finite. cbv zeta. f_equal.
  unfold where_, gains, finite. cbn [map]. f_equal.
  rewrite !map_map. apply map_ext. intros d.
  unfold fgtb. rewrite fltb_fin. now destruct (Rltb 0 d).
Qed.

Lemma rsi_loss_finite (df : DataFrame) (w : nat) (col : PriceCol)
  (cs : list R) :
  cs <> [] ->
  column df col = finite cs ->
  MarketAnalytics.rsi_loss df w col = rolling_mean w (finite (losses cs)).
Proof.
  intros Hne Hcol. destruct cs as [|x t]; [congruence|].
  unfold MarketAnalytics.rsi_loss, MarketAnalytics.rsi_delta.
  rewrite Hcol, diff_finite. cbv zeta. f_equal.
  unfold where_, losses, finite. cbn [map]. f_equal.
  rewrite !map_map. apply map_ext. intros d.
  rewrite fltb_fin. now destruct (Rltb d 0).
Qed.

Lemma Rdiff_length (cs : list R) : length (Rdiff cs) = (length cs - 1)%nat.
Proof.
  unfold Rdiff. rewrite map2_length. destruct cs; simpl; lia.
Qed.

Lemma gains_length (cs : list R) : cs <> [] -> length (gains cs) = length cs.
Proof.
  intros Hne. unfold gains. cbn [length]. rewrite length_map, Rdiff_length.
  destruct cs; [congruence | simpl; lia].
Qed.

Lemma losses_length (cs : list R) : cs <> [] -> length (losses cs) = length cs.
Proof.
  intros Hne. unfold losses. cbn [length]. rewrite length_map, Rdiff_length.
  destruct cs; [congruence | simpl; lia].
Qed.

Lemma rsi_gain_at (df : DataFrame) (w : nat) (col : PriceCol) (cs : list R)
  (i : nat) :
  column df col = finite cs ->
  (1 <= w)%nat -> (w - 1 <= i < length cs)%nat ->
  nth i (MarketAnalytics.rsi_gain df w col) NaN
  = Fin (Rmean (Rwindow (gains cs) w i)).
Proof.
  intros Hcol Hw Hi.
  assert (Hne : cs <> []) by (destruct cs; [simpl in Hi; lia | discriminate]).
  rewrite (rsi_gain_finite df w col cs Hne Hcol).
  apply rolling_mean_at; [exact Hw | rewrite gains_length by exact Hne; lia].
Qed.

Lemma rsi_loss_at (df : DataFrame) (w : nat) (col : PriceCol) (cs : list R)
  (i : nat) :
  column df col = finite cs ->
  (1 <= w)%nat -> (w - 1 <= i < length cs)%nat ->
  nth i (MarketAnalytics.rsi_loss df w col) NaN
  = Fin (Rmean (Rwindow (losses cs) w i)).
Proof.
  intros Hcol Hw Hi.
  assert (Hne : cs <> []) by (destruct cs; [simpl in Hi; lia | discriminate]).
  rewrite (rsi_loss_finite df w col cs Hne Hcol).
  apply rolling_mean_at; [exact Hw | rewrite losses_length by exact Hne; lia].
Qed.

(** The claim as stated fails on a constant series: on the closes
    [10, 10, 10] with [window = 2] the average loss at index 2 is 0, and the
    RSI there is NaN. *)
Lemma compute_rsi_constant_series_nan :
  let df := close_frame (finite [10; 10; 10]) in
  nth 2 (MarketAnalytics.rsi_loss df 2 ColClose) NaN = Fin 0 /\
  nth 2 (value (MarketAnalytics.compute_rsi df 2 ColClose)) NaN <> Fin 100.
Proof.
  intros df.
  assert (Hflat : Rltb (10 - 10) 0 = false /\ Rltb 0 (10 - 10) = false)
    by (split; apply Rltb_false; lra).
  destruct Hflat as [Hneg Hpos].
  assert (Hloss : nth 2 (MarketAnalytics.rsi_loss df 2 ColClose) NaN = Fin 0).
  { rewrite (rsi_loss_at df 2 ColClose [10; 10; 10] 2 eq_refl)
      by (simpl; lia).
    unfold Rwindow, losses, Rdiff, Rmean. simpl. rewrite Hneg.
    f_equal. field. }
  assert (Hgain : nth 2 (MarketAnalytics.rsi_gain df 2 ColClose) NaN = Fin 0).
  { rewrite (rsi_gain_at df 2 ColClose [10; 10; 10] 2 eq_refl)
      by (simpl; lia).
    unfold Rwindow, gains, Rdiff, Rmean. simpl. rewrite Hpos.
    f_equal. field. }
  split; [exact Hloss|].
  rewrite (compute_rsi_flat_window df 2 ColClose 2) by
    (try exact Hloss; try exact Hgain; simpl; lia).
  discriminate.
Qed.

(** *** Strictly increasing prices *)

Lemma Rdiff_positive (cs : list R) :
  strictly_increasing cs -> Forall (fun d => 0 < d) (Rdiff cs).
Proof.
  intros Hinc. apply Forall_forall. intros d Hd.
  apply (In_nth _ _ 0) in Hd. destruct Hd as (j & Hj & <-).
  rewrite Rdiff_length in Hj. unfold Rdiff.
  destruct cs as [|x t]; [simpl in Hj; lia|]. simpl in Hj. cbn [tl].
  rewrite (map2_nth Rminus _ _ j 0 0 0) by (simpl; lia).
  specialize (Hinc j ltac:(simpl; lia)).
  change (nth (S j) (x :: t) 0) with (nth j t 0) in Hinc. lra.
Qed.

Lemma In_Rwindow_tail (h : R) (t : list R) (w i : nat) (x : R) :
  (w <= i)%nat -> In x (Rwindow (h :: t) w i) -> In x t.
Proof.
  intros Hwi. unfold Rwindow.
  replace (i + 1 - w)%nat with (S (i - w)) by lia.
  replace (i + 1)%nat with (S i) by lia.
  cbn [firstn skipn]. intros Hin.
  assert (Hin' : In x (firstn i t)).
  { rewrite <- (firstn_skipn (i - w) (firstn i t)).
    apply in_or_app. now right. }
  rewrite <- (firstn_skipn i t). apply in_or_app. now left.
Qed.

Lemma Rsum_pos (l : list R) :
  l <> [] -> Forall (fun d => 0 < d) l -> 0 < Rsum l.
Proof.
  intros Hne Hall. induction Hall as [|x l Hx Hl IH]; [congruence|].
  simpl. destruct l as [|y l]; [simpl; lra|].
  specialize (IH ltac:(discriminate)). lra.
Qed.

Lemma Rsum_zero (l : list R) : Forall (fun d => d = 0) l -> Rsum l = 0.
Proof.
  intros Hall. induction Hall as [|x l Hx Hl IH]; [reflexivity|].
  simpl. lra.
Qed.

Lemma increasing_average_gain_pos (cs : list R) (w i : nat) :
  strictly_increasing cs ->
  (1 <= w)%nat -> (w <= i < length cs)%nat ->
  0 < Rmean (Rwindow (gains cs) w i).
Proof.
  intros Hinc Hw Hi.
  assert (Hne : cs <> []) by (destruct cs; [simpl in Hi; lia | discriminate]).
  pose proof (Rwindow_length (gains cs) w i Hw
                ltac:(rewrite gains_length by exact Hne; lia)) as Hlen.
  assert (Hwne : Rwindow (gains cs) w i <> [])
    by (destruct (Rwindow (gains cs) w i); [simpl in Hlen; lia | discriminate]).
  unfold Rmean. apply Rdiv_lt_0_compat; [|now apply INR_length_pos].
  apply Rsum_pos; [exact Hwne|].
  apply Forall_forall. intros x Hx. unfold gains in Hx.
  apply In_Rwindow_tail in Hx; [|lia].
  apply in_map_iff in Hx. destruct Hx as (d & <- & Hd).
  pose proof (Rdiff_positive cs Hinc) as Hpos.
  rewrite Forall_forall in Hpos. specialize (Hpos d Hd).
  now rewrite Rltb_true.
Qed.

Lemma increasing_average_loss_zero (cs : list R) (w i : nat) :
  strictly_increasing cs ->
  (1 <= w)%nat -> (w <= i < length cs)%nat ->
  Rmean (Rwindow (losses cs) w i) = 0.
Proof.
  intros Hinc Hw Hi. unfold Rmean. rewrite Rsum_zero.
  - unfold Rdiv. apply Rmult_0_l.
  - apply Forall_forall. intros x Hx. unfold losses in Hx.
    apply In_Rwindow_tail in Hx; [|lia].
    apply in_map_iff in Hx. destruct Hx as (d & <- & Hd).
    pose proof (Rdiff_positive cs Hinc) as Hpos.
    rewrite Forall_forall in Hpos. specialize (Hpos d Hd).
    rewrite Rltb_false by lra. lra.
Qed.

(** On strictly increasing finite prices the RSI is exactly 100 at every
    index [i >= window]. *)
Lemma compute_rsi_strictly_increasing (df : DataFrame) (w : nat)
  (col : PriceCol) (cs : list R) (i : nat) :
  column df col = finite cs ->
  strictly_increasing cs ->
  (1 <= w)%nat -> (w <= i < length cs)%nat ->
  nth i (MarketAnalytics.rsi_loss df w col) NaN = Fin 0 /\
  nth i (MarketAnalytics.rsi_gain df w col) NaN
    = Fin (Rmean (Rwindow (gains cs) w i)) /\
  0 < Rmean (Rwindow (gains cs) w i) /\
  nth i (value (MarketAnalytics.compute_rsi df w col)) NaN = Fin 100.
Proof.
  intros Hcol Hinc Hw Hi.
  assert (Hloss : nth i (MarketAnalytics.rsi_loss df w col) NaN = Fin 0).
  { rewrite (rsi_loss_at df w col cs i Hcol Hw) by lia.
    now rewrite increasing_average_loss_zero. }
  pose proof (rsi_gain_at df w col cs i Hcol Hw ltac:(lia)) as Hgain.
  pose proof (increasing_average_gain_pos cs w i Hinc Hw Hi) as Hg.
  repeat split; try assumption.
  apply (rsi_value_zero_loss df w col i (Rmean (Rwindow (gains cs) w i)));
    try assumption.
  rewrite Hcol, finite_length. lia.
Qed.

Lemma strictly_increasing_1_2_3 : strictly_increasing [1; 2; 3].
Proof.
  intros i Hi. simpl in Hi.
  destruct i as [|[|i]]; simpl; try lra. lia.
Qed.

(** C5, amended.  Whenever the rolling average loss at an index is 0 and
    the rolling average gain there is positive, [compute_rsi] yields exactly
    100 at that index.  No guard precedes the division: the quotient
    [gain / 0] is computed as an IEEE-754 division, whose result is an
    infinity, and the division by zero is on the trace.  (With a negative
    zero divisor the quotient is [-inf] and the result is 100 all the
    same.) *)
Theorem compute_rsi_saturates (df : DataFrame) (w : nat) (col : PriceCol)
  (i : nat) (g : R) :
  (i < length (column df col))%nat ->
  nth i (MarketAnalytics.rsi_loss df w col) NaN = Fin 0 ->
  nth i (MarketAnalytics.rsi_gain df w col) NaN = Fin g ->
  0 < g ->
  nth i (value (MarketAnalytics.compute_rsi df w col)) NaN = Fin 100 /\
  In DivideByZero (raised (MarketAnalytics.compute_rsi df w col)).
Proof.
  intros Hi Hloss Hgain Hg. split.
  - exact (rsi_value_zero_loss df w col i g Hi Hloss Hgain Hg).
  - exact (rsi_trace_zero_loss df w col i g Hi Hloss Hgain Hg).
Qed.

Lemma compute_rsi_saturates_witness :
  nth 2 (value (MarketAnalytics.compute_rsi
                  (close_frame (finite [1; 2; 3])) 2 ColClose)) NaN
  = Fin 100 /\
  In DivideByZero
     (raised (MarketAnalytics.compute_rsi
                (close_frame (finite [1; 2; 3])) 2 ColClose)).
Proof.
  pose proof (compute_rsi_strictly_increasing
                (close_frame (finite [1; 2; 3])) 2 ColClose [1; 2; 3] 2
                eq_refl strictly_increasing_1_2_3 ltac:(lia)
                ltac:(simpl; lia)) as H.
  destruct H as (Hloss & Hgain & Hpos & _).
  exact (compute_rsi_saturates
           (close_frame (finite [1; 2; 3])) 2 ColClose 2
           (Rmean (Rwindow (gains [1; 2; 3]) 2 2))
           (le_n 3) Hloss Hgain Hpos).
Defined.

(** ** The generator on finite parameters *)

Lemma fleb_fin (a b : R) : fleb (Fin a) (Fin b) = true <-> a <= b.
Proof.
  unfold fleb. rewrite fltb_fin, orb_true_iff.
  cbn [feqb]. rewrite Rltb_lt, Reqb_eq.
  unfold Rle. tauto.
Qed.

Lemma draws_length {S A : Type} (step : S -> A * S) (n : nat) (s : S) :
  length (fst (draws step n s)) = n.
Proof.
  revert s. induction n as [|n IH]; intros s; [reflexivity|].
  simpl. destruct (step s) as [x s1]. specialize (IH s1).
  destruct (draws step n s1) as [xs s2]. simpl in *. now rewrite IH.
Qed.

Lemma accumulate_fadd_finite (acc : R) (l : list R) :
  accumulate_from fadd (Fin acc) (finite l) = finite (Rcumsum_from acc l).
Proof.
  revert acc. induction l as [|x l IH]; intros acc; [reflexivity|].
  unfold finite in *. cbn [map accumulate_from Rcumsum_from fadd].
  f_equal. apply IH.
Qed.

Lemma cumsum_finite (l : list R) : cumsum (finite l) = finite (Rcumsum l).
Proof.
  destruct l as [|x t]; [reflexivity|].
  unfold cumsum, Rcumsum, finite. cbn [map]. f_equal.
  apply accumulate_fadd_finite.
Qed.

Lemma map3_finite (g : R -> R -> R -> R)
  (h : float64 -> float64 -> float64 -> float64) (a b c : list R) :
  (forall x y z, h (Fin x) (Fin y) (Fin z) = Fin (g x y z)) ->
  map3 h (finite a) (finite b) (finite c) = finite (map3 g a b c).
Proof.
  intros Hgh. revert b c.
  induction a as [|x a IH]; intros [|y b] [|z c]; try reflexivity.
  unfold finite in *. cbn [map map3]. rewrite Hgh. f_equal. apply IH.
Qed.

Lemma row_max3_finite (a b c : list R) :
  row_max3 (finite a) (finite b) (finite c)
  = finite (map3 (fun x y z => Rmax (Rmax x y) z) a b c).
Proof.
  unfold row_max3. apply map3_finite. intros x y z.
  unfold nanmax. cbn [dropna filter notna is_nan negb fold_left].
  now rewrite !fmax_fin.
Qed.

Lemma row_min3_finite (a b c : list R) :
  row_min3 (finite a) (finite b) (finite c)
  = finite (map3 (fun x y z => Rmin (Rmin x y) z) a b c).
Proof.
  unfold row_min3. apply map3_finite. intros x y z.
  unfold nanmin. cbn [dropna filter notna is_nan negb fold_left].
  now rewrite !fmin_fin.
Qed.

Lemma map3_length {A B C D : Type} (f : A -> B -> C -> D) (a : list A)
  (b : list B) (c : list C) :
  length (map3 f a b c)
  = Nat.min (length a) (Nat.min (length b) (length c)).
Proof.
  revert b c. induction a as [|x a IH]; intros [|y b] [|z c]; simpl; auto.
Qed.

Lemma map3_nth {A B C D : Type} (f : A -> B -> C -> D) (a : list A)
  (b : list B) (c : list C) (i : nat) (da : A) (db : B) (dc : C) (dd : D) :
  (i < length a)%nat -> (i < length b)%nat -> (i < length c)%nat ->
  nth i (map3 f a b c) dd = f (nth i a da) (nth i b db) (nth i c dc).
Proof.
  revert b c i.
  induction a as [|x a IH]; intros [|y b] [|z c] i Ha Hb Hc; simpl in *;
    try lia.
  destruct i as [|i]; [reflexivity|]. apply IH; lia.
Qed.

Lemma Rcumsum_from_length (acc : R) (l : list R) :
  length (Rcumsum_from acc l) = length l.
Proof. revert acc. induction l as [|x l IH]; intros acc; simpl; auto. Qed.

Lemma Rcumsum_length (l : list R) : length (Rcumsum l) = length l.
Proof. destruct l; simpl; [|rewrite Rcumsum_from_length]; reflexivity. Qed.

Lemma Rcumsum_from_nth (l : list R) (acc : R) (i : nat) :
  (i < length l)%nat ->
  nth i (Rcumsum_from acc l) 0 = acc + Rsum (firstn (S i) l).
Proof.
  revert acc i. induction l as [|x l IH]; intros acc i Hi; simpl in Hi; [lia|].
  destruct i as [|i].
  - simpl. lra.
  - cbn [Rcumsum_from nth]. rewrite IH by lia.
    change (firstn (S (S i)) (x :: l)) with (x :: firstn (S i) l).
    simpl Rsum. lra.
Qed.

(** The cumulative sum at [i] is the sum of the first [i + 1] terms. *)
Lemma Rcumsum_nth (l : list R) (i : nat) :
  (i < length l)%nat -> nth i (Rcumsum l) 0 = Rsum (firstn (S i) l).
Proof.
  intros Hi. destruct l as [|x l]; [simpl in Hi; lia|].
  destruct i as [|i].
  - simpl. lra.
  - cbn [Rcumsum nth]. rewrite Rcumsum_from_nth by (simpl in Hi; lia).
    change (firstn (S (S i)) (x :: l)) with (x :: firstn (S i) l).
    reflexivity.
Qed.

Lemma close_of_length (initial_price drift volatility : R) (zs : list R) :
  length (close_of initial_price drift volatility zs) = length zs.
Proof. unfold close_of. now rewrite length_map, Rcumsum_length, length_map. Qed.

Lemma close_of_nth (initial_price drift volatility : R) (zs : list R)
  (i : nat) :
  (i < length zs)%nat ->
  nth i (close_of initial_price drift volatility zs) 0
  = initial_price
    * exp (Rsum (firstn (S i) (map (fun z => drift + volatility * z) zs))).
Proof.
  intros Hi. unfold close_of.
  rewrite (map_nth_lt _ _ i 0) by (now rewrite Rcumsum_length, length_map).
  now rewrite Rcumsum_nth by (now rewrite length_map).
Qed.

Section FetcherProperties.

Variable G : RandomSource.

Lemma gbind_returned {A B : Type} (m : Gen G A) (k : A -> Gen G B)
  (w w' : world G) (a : A) :
  m w = (Returned a, w') -> gbind G m k w = k a w'.
Proof. intros Hm. unfold gbind. now rewrite Hm. Qed.

Lemma gbind_raised {A B : Type} (m : Gen G A) (k : A -> Gen G B)
  (w w' : world G) (e : exception) :
  m w = (Raised e, w') -> gbind G m k w = (Raised e, w').
Proof. intros Hm. unfold gbind. now rewrite Hm. Qed.

Lemma with_rng_run {A : Type} (f : rng_state G -> A * rng_state G)
  (w : world G) :
  with_rng G f w = (Returned (fst (f (rng w))),
                    mkWorld (snd (f (rng w))) (clock_reads w)).
Proof. unfold with_rng. now destruct (f (rng w)). Qed.

Lemma random_normal_run (loc scale : R) (size : Z) (w : world G) :
  (0 <= size)%Z -> 0 <= scale ->
  let d := draws (standard_normal G) (Z.to_nat size) (rng w) in
  random_normal G loc scale size w
  = (Returned (finite (map (fun z => loc + scale * z) (fst d))),
     mkWorld (snd d) (clock_reads w)).
Proof.
  intros Hsize Hscale d. unfold random_normal.
  replace (size <? 0)%Z with false by (symmetry; apply Z.ltb_ge; exact Hsize).
  rewrite (Rltb_false scale 0 Hscale). cbn [orb].
  rewrite (gbind_returned _ _ _ _ _ (with_rng_run _ w)).
  unfold gret, finite. now rewrite map_map.
Qed.

Lemma random_uniform_run (low high : R) (size : Z) (w : world G) :
  (0 <= size)%Z ->
  let d := draws (random_sample G) (Z.to_nat size) (rng w) in
  random_uniform G low high size w
  = (Returned (finite (map (fun u => low + (high - low) * u) (fst d))),
     mkWorld (snd d) (clock_reads w)).
Proof.
  intros Hsize d. unfold random_uniform.
  replace (size <? 0)%Z with false by (symmetry; apply Z.ltb_ge; exact Hsize).
  rewrite (gbind_returned _ _ _ _ _ (with_rng_run _ w)).
  unfold gret, finite. now rewrite map_map.
Qed.

Lemma random_randint_run (low high size : Z) (w : world G) :
  (0 <= size)%Z -> (low < high)%Z ->
  let d := draws (random_below G (high - low)) (Z.to_nat size) (rng w) in
  random_randint G low high size w
  = (Returned (map (fun k => (low + k)%Z) (fst d)),
     mkWorld (snd d) (clock_reads w)).
Proof.
  intros Hsize Hlh d. unfold random_randint.
  replace (size <? 0)%Z with false by (symmetry; apply Z.ltb_ge; exact Hsize).
  replace (high <=? low)%Z with false by (symmetry; apply Z.leb_gt; exact Hlh).
  cbn [orb].
  now rewrite (gbind_returned _ _ _ _ _ (with_rng_run _ w)).
Qed.

(** What [generate_stock_prices] returns, and the world it leaves, when it
    does not raise. *)
Lemma generate_stock_prices_frame (clock : nat -> Timestamp) (symbol : string)
  (days : Z) (initial_price drift volatility : R) (w : world G) :
  (0 <= days)%Z -> 0 <= volatility ->
  let n := Z.to_nat days in
  let d1 := draws (standard_normal G) n (rng w) in
  let d2 := draws (random_sample G) n (snd d1) in
  let d3 := draws (random_sample G) n (snd d2) in
  let d4 := draws (random_sample G) n (snd d3) in
  let d5 := draws (random_below G (10000000 - 1000000)%Z) n (snd d4) in
  let close := close_of initial_price drift volatility (fst d1) in
  let open_ := open_of close (fst d2) in
  let high := high_of close (fst d3) in
  let low := low_of close (fst d4) in
  generate_stock_prices G clock symbol days initial_price drift volatility w
  = (Returned
       (mkDataFrame
          (date_range (clock (clock_reads w) - days * us_per_day)%Z days)
          (repeat symbol n)
          (finite open_)
          (finite (map3 (fun x y z => Rmax (Rmax x y) z) open_ high close))
          (finite (map3 (fun x y z => Rmin (Rmin x y) z) open_ low close))
          (finite close)
          (map (fun k => (1000000 + k)%Z) (fst d5))),
     mkWorld (snd d5) (S (clock_reads w))).
Proof.
  intros Hdays Hvol n d1 d2 d3 d4 d5 close open_ high low.
  unfold generate_stock_prices.
  rewrite (gbind_returned _ _ w (mkWorld (rng w) (S (clock_reads w)))
             (clock (clock_reads w))) by reflexivity.
  cbv zeta.
  rewrite (gbind_returned _ _ _ _ _
             (random_normal_run drift volatility days _ Hdays Hvol)).
  cbn [rng clock_reads]. fold n d1.
  rewrite (gbind_returned _ _ _ _ _
             (random_uniform_run (-0.005) 0.005 days _ Hdays)).
  cbn [rng clock_reads]. fold n d2.
  rewrite (gbind_returned _ _ _ _ _ (random_uniform_run 0 0.01 days _ Hdays)).
  cbn [rng clock_reads]. fold n d3.
  rewrite (gbind_returned _ _ _ _ _ (random_uniform_run 0 0.01 days _ Hdays)).
  cbn [rng clock_reads]. fold n d4.
  rewrite (gbind_returned _ _ _ _ _
             (random_randint_run 1000000 10000000 days _ Hdays eq_refl)).
  cbn [rng clock_reads]. fold n d5.
  unfold gret. f_equal.
  rewrite cumsum_finite.
  rewrite (map_finite_fin (fun v => initial_price * exp v)) by reflexivity.
  fold (close_of initial_price drift volatility (fst d1)). fold close.
  rewrite (map_finite_fin (fun v => 1 + v) (fadd (Fin 1))) by reflexivity.
  rewrite (map_finite_fin (fun v => 1 + Rabs v)
                          (fun u => fadd (Fin 1) (fabs u))) by reflexivity.
  rewrite (map_finite_fin (fun v => 1 - Rabs v)
                          (fun u => fsub (Fin 1) (fabs u))) by reflexivity.
  rewrite !map_map.
  rewrite !(map2_finite Rmult) by reflexivity.
  fold (open_of close (fst d2)) (high_of close (fst d3))
       (low_of close (fst d4)).
  fold open_ high low.
  now rewrite row_max3_finite, row_min3_finite.
Qed.

(** [generate_stock_prices] raises on a negative [days] or [volatility]. *)
Lemma generate_stock_prices_raises (clock : nat -> Timestamp) (symbol : string)
  (days : Z) (initial_price drift volatility : R) (w : world G) :
  (days < 0)%Z \/ volatility < 0 ->
  generate_stock_prices G clock symbol days initial_price drift volatility w
  = (Raised ValueError, mkWorld (rng w) (S (clock_reads w))).
Proof.
  intros Hbad. unfold generate_stock_prices.
  rewrite (gbind_returned _ _ w (mkWorld (rng w) (S (clock_reads w)))
             (clock (clock_reads w))) by reflexivity.
  cbv zeta. apply gbind_raised. unfold random_normal.
  replace ((days <? 0)%Z || Rltb volatility 0) with true; [reflexivity|].
  symmetry. apply orb_true_iff. destruct Hbad as [Hd | Hv].
  - left. now apply Z.ltb_lt.
  - right. now apply Rltb_true.
Qed.



(** *** C9: reproducibility *)

Lemma dict_set_without_dates (k : string) (v : DataFrame)
  (d : list (string * DataFrame)) :
  dict_without_dates (dict_set k v d)
  = dict_set k (without_dates v) (dict_without_dates d).
Proof.
  unfold dict_without_dates.
  induction d as [|[k' v'] d IH]; [reflexivity|].
  cbn [dict_set map fst snd].
  destruct (String.eqb k k'); [reflexivity|].
  cbn [map fst snd]. now rewrite IH.
Qed.

Lemma gbind_run {A B : Type} (m : Gen G A) (k : A -> Gen G B) (w : world G) :
  gbind G m k w
  = match m w with
    | (Returned a, w') => k a w'
    | (Raised e, w') => (Raised e, w')
    end.
Proof. reflexivity. Qed.

Lemma random_uniform1_run (low high : R) (w : world G) :
  random_uniform1 G low high w
  = (Returned (low + (high - low) * fst (random_sample G (rng w))),
     mkWorld (snd (random_sample G (rng w))) (clock_reads w)).
Proof.
  unfold random_uniform1.
  now rewrite (gbind_returned _ _ _ _ _ (with_rng_run _ w)).
Qed.

(** The clock reaches nothing but the [Date] column: the world a call
    leaves and everything else it returns are the same under any two
    clocks. *)
Lemma generate_stock_prices_clock_free (clock1 clock2 : nat -> Timestamp)
  (symbol : string) (days : Z) (initial_price drift volatility : R)
  (w : world G) :
  let r1 := generate_stock_prices G clock1 symbol days initial_price drift
                                  volatility w in
  let r2 := generate_stock_prices G clock2 symbol days initial_price drift
                                  volatility w in
  snd r1 = snd r2 /\
  outcome_map without_dates (fst r1) = outcome_map without_dates (fst r2).
Proof.
  intros r1 r2. subst r1 r2.
  destruct (Z_lt_ge_dec days 0) as [Hneg | Hdays].
  { rewrite !generate_stock_prices_raises by (now left). now split. }
  destruct (Rlt_dec volatility 0) as [Hvneg | Hvol].
  { rewrite !generate_stock_prices_raises by (now right). now split. }
  rewrite !generate_stock_prices_frame by (lia || lra).
  now split.
Qed.

Lemma generate_stock_prices_clock_ext (clock1 clock2 : nat -> Timestamp)
  (symbol : string) (days : Z) (initial_price drift volatility : R)
  (w : world G) :
  (forall k, clock1 k = clock2 k) ->
  generate_stock_prices G clock1 symbol days initial_price drift volatility w
  = generate_stock_prices G clock2 symbol days initial_price drift volatility w.
Proof.
  intros Hclock. unfold generate_stock_prices.
  rewrite !(gbind_run (datetime_now G _)). unfold datetime_now.
  now rewrite (Hclock (clock_reads w)).
Qed.

Lemma generate_multiple_stocks_loop_clock_free
  (clock1 clock2 : nat -> Timestamp) (symbols : list string) (days : Z) :
  forall (data1 data2 : list (string * DataFrame)) (w : world G),
    dict_without_dates data1 = dict_without_dates data2 ->
    let r1 := generate_multiple_stocks_loop G clock1 symbols days data1 w in
    let r2 := generate_multiple_stocks_loop G clock2 symbols days data2 w in
    snd r1 = snd r2 /\
    outcome_map dict_without_dates (fst r1)
    = outcome_map dict_without_dates (fst r2).
Proof.
  induction symbols as [|symbol rest IH]; intros data1 data2 w Hdata.
  - cbn. split; [reflexivity | now rewrite Hdata].
  - cbv zeta. cbn [generate_multiple_stocks_loop].
    rewrite !(gbind_returned _ _ _ _ _ (random_uniform1_run _ _ _)).
    rewrite !gbind_run.
    match goal with
    | |- context [generate_stock_prices G clock1 symbol days ?ip ?dr ?vo ?w3] =>
        pose proof (generate_stock_prices_clock_free clock1 clock2 symbol days
                      ip dr vo w3) as Hfree;
        cbv zeta in Hfree; destruct Hfree as [Hw Ho];
        destruct (generate_stock_prices G clock1 symbol days ip dr vo w3)
          as [o1 w1];
        destruct (generate_stock_prices G clock2 symbol days ip dr vo w3)
          as [o2 w2]
    end.
    cbn [fst snd] in Hw, Ho. subst w2.
    destruct o1 as [df1 | e1], o2 as [df2 | e2]; cbn [outcome_map] in Ho;
      try discriminate.
    + assert (Hdf : without_dates df1 = without_dates df2) by congruence.
      apply IH. now rewrite !dict_set_without_dates, Hdata, Hdf.
    + injection Ho as Ho. subst e2. now split.
Qed.

Lemma generate_multiple_stocks_loop_clock_ext
  (clock1 clock2 : nat -> Timestamp) (symbols : list string) (days : Z) :
  (forall k, clock1 k = clock2 k) ->
  forall (data : list (string * DataFrame)) (w : world G),
    generate_multiple_stocks_loop G clock1 symbols days data w
    = generate_multiple_stocks_loop G clock2 symbols days data w.
Proof.
  intros Hclock. induction symbols as [|symbol rest IH]; intros data w;
    [reflexivity|].
  cbn [generate_multiple_stocks_loop].
  rewrite !(gbind_returned _ _ _ _ _ (random_uniform1_run _ _ _)).
  rewrite !gbind_run.
  rewrite (generate_stock_prices_clock_ext clock1 clock2) by exact Hclock.
  destruct (generate_stock_prices G clock2 symbol days _ _ _ _) as [[df | e] w1];
    [apply IH | reflexivity].
Qed.

Lemma perform_clock_free (clock1 clock2 : nat -> Timestamp) (c : call)
  (w : world G) :
  snd (perform G clock1 c w) = snd (perform G clock2 c w) /\
  reply_without_dates (fst (perform G clock1 c w))
  = reply_without_dates (fst (perform G clock2 c w)).
Proof.
  destruct c as [symbol days ip dr vo | symbols days]; cbn [perform].
  - pose proof (generate_stock_prices_clock_free clock1 clock2 symbol days
                  ip dr vo w) as Hfree.
    cbv zeta in Hfree. destruct Hfree as [Hw Ho].
    destruct (generate_stock_prices G clock1 symbol days ip dr vo w).
    destruct (generate_stock_prices G clock2 symbol days ip dr vo w).
    cbn [fst snd reply_without_dates] in *. now rewrite Hw, Ho.
  - pose proof (generate_multiple_stocks_loop_clock_free clock1 clock2 symbols
                  days [] [] w eq_refl) as Hfree.
    cbv zeta in Hfree. destruct Hfree as [Hw Ho].
    unfold generate_multiple_stocks.
    destruct (generate_multiple_stocks_loop G clock1 symbols days [] w).
    destruct (generate_multiple_stocks_loop G clock2 symbols days [] w).
    cbn [fst snd reply_without_dates] in *. now rewrite Hw, Ho.
Qed.

Lemma perform_all_clock_free (clock1 clock2 : nat -> Timestamp)
  (calls : list call) :
  forall w : world G,
    map reply_without_dates (perform_all G clock1 calls w)
    = map reply_without_dates (perform_all G clock2 calls w).
Proof.
  induction calls as [|c rest IH]; intros w; [reflexivity|].
  cbn [perform_all].
  destruct (perform_clock_free clock1 clock2 c w) as [Hw Hr].
  destruct (perform G clock1 c w) as [r1 w1].
  destruct (perform G clock2 c w) as [r2 w2].
  cbn [fst snd map] in *. subst w2. now rewrite Hr, IH.
Qed.

Lemma perform_all_clock_ext (clock1 clock2 : nat -> Timestamp)
  (calls : list call) :
  (forall k, clock1 k = clock2 k) ->
  forall w : world G,
    perform_all G clock1 calls w = perform_all G clock2 calls w.
Proof.
  intros Hclock. induction calls as [|c rest IH]; intros w; [reflexivity|].
  cbn [perform_all].
  assert (Hc : perform G clock1 c w = perform G clock2 c w).
  { destruct c as [symbol days ip dr vo | symbols days]; cbn [perform].
    - now rewrite (generate_stock_prices_clock_ext clock1 clock2).
    - unfold generate_multiple_stocks.
      now rewrite (generate_multiple_stocks_loop_clock_ext clock1 clock2). }
  rewrite Hc. destruct (perform G clock2 c w) as [r w']. now rewrite IH.
Qed.


(** With zero drift and zero volatility every close is the initial price,
    whatever the generator draws. *)
Lemma generate_stock_prices_zero_volatility (clock : nat -> Timestamp)
  (symbol : string) (days : Z) (initial_price : R) (w : world G) :
  (0 <= days)%Z ->
  exists df w',
    generate_stock_prices G clock symbol days initial_price 0 0 w
    = (Returned df, w') /\
    Close df = finite (repeat initial_price (Z.to_nat days)).
Proof.
  intros Hdays. eexists. eexists. split.
  - exact (generate_stock_prices_frame clock symbol days initial_price 0 0 w
             Hdays (Rle_refl 0)).
  - cbn [Close]. f_equal.
    set (zs := fst (draws (standard_normal G) (Z.to_nat days) (rng w))).
    assert (Hn : length zs = Z.to_nat days) by apply draws_length.
    apply (nth_ext _ _ 0 0).
    + now rewrite close_of_length, repeat_length.
    + intros i Hi. rewrite close_of_length in Hi.
      rewrite close_of_nth by exact Hi.
      rewrite nth_repeat_lt by lia.
      replace (Rsum _) with 0; [rewrite exp_0; ring|].
      symmetry. apply Rsum_zero. apply Forall_forall. intros x Hx.
      apply In_firstn_nth in Hx. destruct Hx as (j & _ & Hj & <-).
      rewrite length_map in Hj.
      rewrite (map_nth_lt _ _ j 0 0) by exact Hj. ring.
Qed.

End FetcherProperties.

(** ** Instances on the example generator *)





(** * Further properties *)

(** ** Rolling windows before sufficient history *)

Lemma window_at_short (s : Series) (w i : nat) :
  (i + 1 < w)%nat -> (length (dropna (window_at s w i)) < w)%nat.
Proof.
  intros Hi. unfold dropna, window_at.
  eapply Nat.le_lt_trans; [apply filter_length_le|].
  rewrite length_skipn, length_firstn. lia.
Qed.

Lemma roll_mean_short (w : nat) (win : Series) :
  (length (dropna win) < w)%nat -> roll_mean w win = NaN.
Proof.
  intros Hlen. unfold roll_mean.
  replace (w <=? length (dropna win))%nat with false
    by (symmetry; apply Nat.leb_gt; exact Hlen).
  reflexivity.
Qed.

Lemma roll_std_short (w : nat) (win : Series) :
  (length (dropna win) < w)%nat -> roll_std w win = NaN.
Proof.
  intros Hlen. unfold roll_std, roll_var.
  replace (w <=? length (dropna win))%nat with false
    by (symmetry; apply Nat.leb_gt; exact Hlen).
  reflexivity.
Qed.

Lemma rolling_mean_prefix (s : Series) (w i : nat) :
  (i + 1 < w)%nat -> (i < length s)%nat -> nth i (rolling_mean w s) NaN = NaN.
Proof.
  intros Hi Hlen. unfold rolling_mean. rewrite rolling_nth by exact Hlen.
  apply roll_mean_short. now apply window_at_short.
Qed.

Lemma rolling_std_prefix (s : Series) (w i : nat) :
  (i + 1 < w)%nat -> (i < length s)%nat -> nth i (rolling_std w s) NaN = NaN.
Proof.
  intros Hi Hlen. unfold rolling_std. rewrite rolling_nth by exact Hlen.
  apply roll_std_short. now apply window_at_short.
Qed.

(** The window of index [i] lists the entries [i-w+1 .. i]. *)
Lemma Rwindow_entries (cs : list R) (w i : nat) :
  (1 <= w)%nat -> (w - 1 <= i < length cs)%nat ->
  Rwindow cs w i = map (fun k => nth (i + 1 - w + k) cs 0) (seq 0 w).
Proof.
  intros Hw Hi. apply (nth_ext _ _ 0 (nth (i + 1 - w + 0) cs 0)).
  - now rewrite Rwindow_length, length_map, length_seq.
  - intros k Hk. rewrite Rwindow_length in Hk by assumption.
    rewrite (map_nth (fun k => nth (i + 1 - w + k) cs 0)), seq_nth by exact Hk.
    unfold Rwindow. rewrite nth_skipn, nth_firstn.
    replace (i + 1 - w + k <? i + 1)%nat with true
      by (symmetry; apply Nat.ltb_lt; lia).
    reflexivity.
Qed.

(** X1.  [compute_moving_average] on finite prices with a window [w >= 1]
    returns a series aligned with its input: the entries before index
    [w - 1] are NaN, and the entry at [i >= w - 1] is the arithmetic mean of
    [close[i-w+1 .. i]]. *)
Theorem compute_moving_average_aligned (df : DataFrame) (col : PriceCol)
  (cs : list R) (w : nat) :
  column df col = finite cs ->
  (1 <= w)%nat ->
  length (MarketAnalytics.compute_moving_average df w col) = length cs /\
  (forall i, (i + 1 < w)%nat -> (i < length cs)%nat ->
     nth i (MarketAnalytics.compute_moving_average df w col) NaN = NaN) /\
  (forall i, (w - 1 <= i < length cs)%nat ->
     nth i (MarketAnalytics.compute_moving_average df w col) NaN
     = Fin (Rsum (map (fun k => nth (i + 1 - w + k) cs 0) (seq 0 w))
            / INR w)).
Proof.
  intros Hcol Hw. unfold MarketAnalytics.compute_moving_average.
  rewrite Hcol. repeat split.
  - unfold rolling_mean. now rewrite rolling_length, finite_length.
  - intros i Hi Hlen. apply rolling_mean_prefix; [exact Hi|].
    now rewrite finite_length.
  - intros i Hi. rewrite rolling_mean_at by assumption.
    unfold Rmean. rewrite Rwindow_length by assumption.
    now rewrite Rwindow_entries by assumption.
Qed.

Lemma compute_moving_average_aligned_witness :
  length (MarketAnalytics.compute_moving_average
            (close_frame (finite [10; 20; 30; 40])) 3 ColClose)
  = length [10; 20; 30; 40] /\
  (forall i, (i + 1 < 3)%nat -> (i < length [10; 20; 30; 40])%nat ->
     nth i (MarketAnalytics.compute_moving_average
              (close_frame (finite [10; 20; 30; 40])) 3 ColClose) NaN = NaN) /\
  (forall i, (3 - 1 <= i < length [10; 20; 30; 40])%nat ->
     nth i (MarketAnalytics.compute_moving_average
              (close_frame (finite [10; 20; 30; 40])) 3 ColClose) NaN
     = Fin (Rsum (map (fun k => nth (i + 1 - 3 + k) [10; 20; 30; 40] 0)
                      (seq 0 3))
            / INR 3)).
Proof.
  apply (compute_moving_average_aligned
           (close_frame (finite [10; 20; 30; 40])) ColClose
           [10; 20; 30; 40] 3).
  - reflexivity.
  - lia.
Defined.

(** ** Bollinger Bands: undefined prefix and symmetry *)

(** X2.  Whatever the prices and [num_std], the three Bollinger bands are
    NaN at every index before [window - 1]. *)
Theorem bollinger_bands_prefix_undefined (df : DataFrame) (col : PriceCol)
  (w : nat) (num_std : float64) (i : nat) :
  (i + 1 < w)%nat ->
  (i < length (column df col))%nat ->
  let '(middle, upper, lower) :=
    MarketAnalytics.compute_bollinger_bands df w num_std col in
  nth i middle NaN = NaN /\ nth i upper NaN = NaN /\ nth i lower NaN = NaN.
Proof.
  intros Hi Hlen. unfold MarketAnalytics.compute_bollinger_bands.
  set (s := column df col) in *.
  pose proof (rolling_mean_prefix s w i Hi Hlen) as Hm.
  assert (Hlm : (i < length (rolling_mean w s))%nat)
    by (unfold rolling_mean; now rewrite rolling_length).
  assert (Hls : (i < length (rolling_std w s))%nat)
    by (unfold rolling_std; now rewrite rolling_length).
  repeat split.
  - exact Hm.
  - rewrite (map2_nth fadd _ _ i NaN NaN NaN)
      by (rewrite ?length_map; assumption).
    now rewrite Hm.
  - rewrite (map2_nth fsub _ _ i NaN NaN NaN)
      by (rewrite ?length_map; assumption).
    now rewrite Hm.
Qed.

Lemma bollinger_bands_prefix_undefined_witness :
  let '(middle, upper, lower) :=
    MarketAnalytics.compute_bollinger_bands
      (close_frame (finite [10; 11; 12])) 3 (Fin 2) ColClose in
  nth 1 middle NaN = NaN /\ nth 1 upper NaN = NaN /\ nth 1 lower NaN = NaN.
Proof.
  apply (bollinger_bands_prefix_undefined
           (close_frame (finite [10; 11; 12])) ColClose 3 (Fin 2) 1).
  - lia.
  - simpl; lia.
Defined.

(** X3.  On finite prices with a window [w >= 2], at every index
    [i >= w - 1] the upper and lower bands lie symmetrically about the
    middle band, [num_std] rolling standard deviations away, whatever the
    sign of [num_std]: [upper - middle = middle - lower = num_std * std]. *)
Theorem bollinger_bands_symmetric (df : DataFrame) (col : PriceCol)
  (cs : list R) (w : nat) (k : R) (i : nat) :
  column df col = finite cs ->
  (2 <= w)%nat ->
  (w - 1 <= i < length cs)%nat ->
  let '(middle, upper, lower) :=
    MarketAnalytics.compute_bollinger_bands df w (Fin k) col in
  exists m u l s,
    nth i middle NaN = Fin m /\
    nth i upper NaN = Fin u /\
    nth i lower NaN = Fin l /\
    nth i (rolling_std w (column df col)) NaN = Fin s /\
    u - m = k * s /\ m - l = k * s.
Proof.
  intros Hcol Hw Hi.
  pose proof (bollinger_bands_at df col cs w k i Hcol Hw Hi) as H.
  cbv zeta in H.
  destruct (MarketAnalytics.compute_bollinger_bands df w (Fin k) col)
    as [[middle upper] lower].
  destruct H as (Hm & Hu & Hl & Hs).
  eexists. eexists. eexists. eexists.
  repeat split; try eassumption; ring.
Qed.

Lemma bollinger_bands_symmetric_witness :
  let '(middle, upper, lower) :=
    MarketAnalytics.compute_bollinger_bands
      (close_frame (finite [10; 12; 11; 13])) 3 (Fin 2) ColClose in
  exists m u l s,
    nth 2 middle NaN = Fin m /\
    nth 2 upper NaN = Fin u /\
    nth 2 lower NaN = Fin l /\
    nth 2 (rolling_std 3 (column (close_frame (finite [10; 12; 11; 13]))
                                 ColClose)) NaN = Fin s /\
    u - m = 2 * s /\ m - l = 2 * s.
Proof.
  apply (bollinger_bands_symmetric
           (close_frame (finite [10; 12; 11; 13])) ColClose
           [10; 12; 11; 13] 3 2 2).
  - reflexivity.
  - lia.
  - simpl; lia.
Defined.

(** ** RSI: closed form, range and monotone series *)

Lemma Rsum_nonneg (l : list R) : Forall (fun x => 0 <= x) l -> 0 <= Rsum l.
Proof.
  intros Hall. induction Hall as [|x l Hx Hl IH]; simpl; lra.
Qed.

Lemma Rmean_nonneg (l : list R) : Forall (fun x => 0 <= x) l -> 0 <= Rmean l.
Proof.
  intros Hall. unfold Rmean. destruct l as [|x t].
  - simpl. unfold Rdiv. rewrite Rmult_0_l. lra.
  - pose proof (Rsum_nonneg _ Hall) as Hs.
    pose proof (INR_length_pos (x :: t) ltac:(discriminate)) as Hn.
    pose proof (Rinv_0_lt_compat _ Hn) as Hinv.
    unfold Rdiv. nra.
Qed.

Lemma Forall_Rwindow (P : R -> Prop) (cs : list R) (w i : nat) :
  Forall P cs -> Forall P (Rwindow cs w i).
Proof.
  intros Hall. apply Forall_forall. intros x Hx. unfold Rwindow in Hx.
  rewrite Forall_forall in Hall. apply Hall.
  assert (Hin : In x (firstn (i + 1) cs)).
  { rewrite <- (firstn_skipn (i + 1 - w) (firstn (i + 1) cs)).
    apply in_or_app. now right. }
  rewrite <- (firstn_skipn (i + 1) cs). apply in_or_app. now left.
Qed.

Lemma gains_nonneg (cs : list R) : Forall (fun x => 0 <= x) (gains cs).
Proof.
  unfold gains. constructor; [lra|].
  apply Forall_forall. intros x Hx. apply in_map_iff in Hx.
  destruct Hx as (d & <- & _). unfold Rltb.
  destruct (Rlt_dec 0 d); lra.
Qed.

Lemma losses_nonneg (cs : list R) : Forall (fun x => 0 <= x) (losses cs).
Proof.
  unfold losses. constructor; [lra|].
  apply Forall_forall. intros x Hx. apply in_map_iff in Hx.
  destruct Hx as (d & <- & _). unfold Rltb.
  destruct (Rlt_dec d 0); lra.
Qed.

(** The RSI at an index in terms of the average gain [g] and loss [l]
    there: [100 g / (g + l)] as soon as one of them is positive. *)
Lemma rsi_value_closed_form (df : DataFrame) (w : nat) (col : PriceCol)
  (i : nat) (g l : R) :
  (i < length (column df col))%nat ->
  nth i (MarketAnalytics.rsi_gain df w col) NaN = Fin g ->
  nth i (MarketAnalytics.rsi_loss df w col) NaN = Fin l ->
  0 <= g -> 0 <= l -> 0 < g + l ->
  nth i (value (MarketAnalytics.compute_rsi df w col)) NaN
  = Fin (100 * g / (g + l)).
Proof.
  intros Hi Hgain Hloss Hg Hl Hgl.
  destruct (Req_dec_T l 0) as [-> | Hlnz].
  - rewrite (rsi_value_zero_loss df w col i g Hi Hloss Hgain) by lra.
    f_equal. field. lra.
  - rewrite (compute_rsi_at df w col i Hi), Hloss, Hgain.
    rewrite (fdiv_fin g l Hlnz). cbn [fadd].
    assert (Hpos : 0 < 1 + g / l).
    { pose proof (Rinv_0_lt_compat l ltac:(lra)) as Hinv.
      unfold Rdiv. nra. }
    rewrite fdiv_fin by lra. rewrite fsub_fin. f_equal. field. lra.
Qed.

(** X4.  On finite prices with a window [w >= 1], at every index
    [i >= w - 1] the average gain [g] and loss [l] are non-negative finite
    numbers; when one of them is positive the RSI is [100 g / (g + l)], a
    number of [[0, 100]], and when both are 0 the RSI is NaN. *)
Theorem compute_rsi_closed_form (df : DataFrame) (w : nat) (col : PriceCol)
  (cs : list R) (i : nat) :
  column df col = finite cs ->
  (1 <= w)%nat -> (w - 1 <= i < length cs)%nat ->
  exists g l,
    nth i (MarketAnalytics.rsi_gain df w col) NaN = Fin g /\
    nth i (MarketAnalytics.rsi_loss df w col) NaN = Fin l /\
    0 <= g /\ 0 <= l /\
    (0 < g + l ->
     nth i (value (MarketAnalytics.compute_rsi df w col)) NaN
       = Fin (100 * g / (g + l)) /\
     0 <= 100 * g / (g + l) <= 100) /\
    (g + l = 0 ->
     nth i (value (MarketAnalytics.compute_rsi df w col)) NaN = NaN).
Proof.
  intros Hcol Hw Hi.
  pose proof (rsi_gain_at df w col cs i Hcol Hw Hi) as Hgain.
  pose proof (rsi_loss_at df w col cs i Hcol Hw Hi) as Hloss.
  set (g := Rmean (Rwindow (gains cs) w i)) in *.
  set (l := Rmean (Rwindow (losses cs) w i)) in *.
  assert (Hg : 0 <= g)
    by (apply Rmean_nonneg, Forall_Rwindow, gains_nonneg).
  assert (Hl : 0 <= l)
    by (apply Rmean_nonneg, Forall_Rwindow, losses_nonneg).
  assert (Hlen : (i < length (column df col))%nat)
    by (rewrite Hcol, finite_length; lia).
  exists g, l. repeat split; try assumption.
  - now apply rsi_value_closed_form.
  - apply Rmult_le_pos; [lra|]. left. apply Rinv_0_lt_compat. exact H.
  - apply (Rmult_le_reg_r (g + l)); [exact H|].
    unfold Rdiv. rewrite Rmult_assoc, Rinv_l by lra. lra.
  - intros Hzero.
    assert (g = 0) by lra. assert (l = 0) by lra.
    apply compute_rsi_flat_window; [exact Hlen | congruence | congruence].
Qed.

Lemma compute_rsi_closed_form_witness :
  exists g l,
    nth 2 (MarketAnalytics.rsi_gain (close_frame (finite [10; 12; 11])) 2
                                    ColClose) NaN = Fin g /\
    nth 2 (MarketAnalytics.rsi_loss (close_frame (finite [10; 12; 11])) 2
                                    ColClose) NaN = Fin l /\
    0 <= g /\ 0 <= l /\
    (0 < g + l ->
     nth 2 (value (MarketAnalytics.compute_rsi
                     (close_frame (finite [10; 12; 11])) 2 ColClose)) NaN
       = Fin (100 * g / (g + l)) /\
     0 <= 100 * g / (g + l) <= 100) /\
    (g + l = 0 ->
     nth 2 (value (MarketAnalytics.compute_rsi
                     (close_frame (finite [10; 12; 11])) 2 ColClose)) NaN
     = NaN).
Proof.
  apply (compute_rsi_closed_form (close_frame (finite [10; 12; 11])) 2
           ColClose [10; 12; 11] 2).
  - reflexivity.
  - lia.
  - simpl; lia.
Defined.

(** X5.  Whatever the prices, the RSI is NaN at every index before
    [window - 1]. *)
Theorem compute_rsi_prefix_undefined (df : DataFrame) (w : nat)
  (col : PriceCol) (i : nat) :
  (i + 1 < w)%nat ->
  (i < length (column df col))%nat ->
  nth i (value (MarketAnalytics.compute_rsi df w col)) NaN = NaN.
Proof.
  intros Hi Hlen. rewrite (compute_rsi_at df w col i Hlen).
  assert (Hgain : nth i (MarketAnalytics.rsi_gain df w col) NaN = NaN).
  { unfold MarketAnalytics.rsi_gain, MarketAnalytics.rsi_delta. cbv zeta.
    apply rolling_mean_prefix; [exact Hi|].
    unfold where_. now rewrite length_map, diff_length. }
  now rewrite Hgain.
Qed.

Lemma compute_rsi_prefix_undefined_witness :
  nth 1 (value (MarketAnalytics.compute_rsi
                  (close_frame (finite [10; 12; 11; 13])) 3 ColClose)) NaN
  = NaN.
Proof.
  apply (compute_rsi_prefix_undefined
           (close_frame (finite [10; 12; 11; 13])) 3 ColClose 1).
  - lia.
  - simpl; lia.
Defined.

(** X6.  On strictly increasing finite prices the RSI is exactly 100 at
    every index [i >= window]. *)
Theorem compute_rsi_increasing (df : DataFrame) (w : nat) (col : PriceCol)
  (cs : list R) (i : nat) :
  column df col = finite cs ->
  strictly_increasing cs ->
  (1 <= w)%nat -> (w <= i < length cs)%nat ->
  nth i (value (MarketAnalytics.compute_rsi df w col)) NaN = Fin 100.
Proof.
  intros Hcol Hinc Hw Hi.
  now destruct (compute_rsi_strictly_increasing df w col cs i Hcol Hinc Hw Hi)
    as (_ & _ & _ & H).
Qed.

Lemma compute_rsi_increasing_witness :
  nth 3 (value (MarketAnalytics.compute_rsi
                  (close_frame (finite [1; 2; 3; 4])) 2 ColClose)) NaN
  = Fin 100.
Proof.
  apply (compute_rsi_increasing (close_frame (finite [1; 2; 3; 4])) 2
           ColClose [1; 2; 3; 4] 3).
  - reflexivity.
  - intros i Hi. simpl in Hi.
    destruct i as [|[|[|i]]]; simpl; try lra. lia.
  - lia.
  - simpl; lia.
Defined.

Lemma Rdiff_negative (cs : list R) :
  strictly_decreasing cs -> Forall (fun d => d < 0) (Rdiff cs).
Proof.
  intros Hdec. apply Forall_forall. intros d Hd.
  apply (In_nth _ _ 0) in Hd. destruct Hd as (j & Hj & <-).
  rewrite Rdiff_length in Hj. unfold Rdiff.
  destruct cs as [|x t]; [simpl in Hj; lia|]. simpl in Hj. cbn [tl].
  rewrite (map2_nth Rminus _ _ j 0 0 0) by (simpl; lia).
  specialize (Hdec j ltac:(simpl; lia)).
  change (nth (S j) (x :: t) 0) with (nth j t 0) in Hdec. lra.
Qed.

(** X7.  On strictly decreasing finite prices the RSI is exactly 0 at every
    index [i >= window]. *)
Theorem compute_rsi_decreasing (df : DataFrame) (w : nat) (col : PriceCol)
  (cs : list R) (i : nat) :
  column df col = finite cs ->
  strictly_decreasing cs ->
  (1 <= w)%nat -> (w <= i < length cs)%nat ->
  nth i (value (MarketAnalytics.compute_rsi df w col)) NaN = Fin 0.
Proof.
  intros Hcol Hdec Hw Hi.
  assert (Hne : cs <> []) by (destruct cs; [simpl in Hi; lia | discriminate]).
  pose proof (Rdiff_negative cs Hdec) as Hneg.
  rewrite Forall_forall in Hneg.
  pose proof (rsi_gain_at df w col cs i Hcol Hw ltac:(lia)) as Hgain.
  pose proof (rsi_loss_at df w col cs i Hcol Hw ltac:(lia)) as Hloss.
  assert (Hg : Rmean (Rwindow (gains cs) w i) = 0).
  { unfold Rmean. rewrite Rsum_zero; [unfold Rdiv; apply Rmult_0_l|].
    apply Forall_forall. intros x Hx. unfold gains in Hx.
    apply In_Rwindow_tail in Hx; [|lia].
    apply in_map_iff in Hx. destruct Hx as (d & <- & Hd).
    specialize (Hneg d Hd). now rewrite Rltb_false by lra. }
  assert (Hl : 0 < Rmean (Rwindow (losses cs) w i)).
  { pose proof (Rwindow_length (losses cs) w i Hw
                  ltac:(rewrite losses_length by exact Hne; lia)) as Hlen.
    assert (Hwne : Rwindow (losses cs) w i <> [])
      by (destruct (Rwindow (losses cs) w i);
          [simpl in Hlen; lia | discriminate]).
    unfold Rmean. apply Rdiv_lt_0_compat; [|now apply INR_length_pos].
    apply Rsum_pos; [exact Hwne|].
    apply Forall_forall. intros x Hx. unfold losses in Hx.
    apply In_Rwindow_tail in Hx; [|lia].
    apply in_map_iff in Hx. destruct Hx as (d & <- & Hd).
    specialize (Hneg d Hd). rewrite Rltb_true by lra. lra. }
  rewrite Hg in Hgain.
  rewrite (rsi_value_closed_form df w col i 0 _
             ltac:(rewrite Hcol, finite_length; lia) Hgain Hloss)
    by lra.
  f_equal. unfold Rdiv. ring.
Qed.

Lemma compute_rsi_decreasing_witness :
  nth 3 (value (MarketAnalytics.compute_rsi
                  (close_frame (finite [4; 3; 2; 1])) 2 ColClose)) NaN
  = Fin 0.
Proof.
  apply (compute_rsi_decreasing (close_frame (finite [4; 3; 2; 1])) 2
           ColClose [4; 3; 2; 1] 3).
  - reflexivity.
  - intros i Hi. simpl in Hi.
    destruct i as [|[|[|i]]]; simpl; try lra. lia.
  - lia.
  - simpl; lia.
Defined.

(** ** Mean, volatility and Sharpe ratio *)

Lemma Rsum_bounds (l : list R) (lo hi : R) :
  (forall x, In x l -> lo <= x <= hi) ->
  INR (length l) * lo <= Rsum l <= INR (length l) * hi.
Proof.
  induction l as [|x l IH]; intros Hall.
  - simpl. lra.
  - assert (Hx : lo <= x <= hi) by (apply Hall; now left).
    assert (Hl : INR (length l) * lo <= Rsum l <= INR (length l) * hi)
      by (apply IH; intros y Hy; apply Hall; now right).
    change (length (x :: l)) with (S (length l)). rewrite S_INR.
    simpl Rsum. lra.
Qed.

Lemma Rmean_bounds (l : list R) :
  l <> [] -> Rminimum l <= Rmean l <= Rmaximum l.
Proof.
  intros Hne.
  pose proof (INR_length_pos l Hne) as Hn.
  pose proof (Rinv_0_lt_compat _ Hn) as Hinv.
  pose proof (Rsum_bounds l (Rminimum l) (Rmaximum l)) as Hb.
  destruct Hb as [Hlo Hhi].
  { intros x Hx. split; [now apply Rminimum_le_In | now apply Rmaximum_ge_In]. }
  unfold Rmean. split.
  - apply (Rmult_le_reg_l (INR (length l))); [exact Hn|].
    unfold Rdiv. rewrite (Rmult_comm (Rsum l)), <- Rmult_assoc.
    rewrite Rinv_r by lra. lra.
  - apply (Rmult_le_reg_l (INR (length l))); [exact Hn|].
    unfold Rdiv. rewrite (Rmult_comm (Rsum l)), <- Rmult_assoc.
    rewrite Rinv_r by lra. lra.
Qed.



(** X9.  On a series with no valid entry (empty, or NaN only) the mean,
    the volatility and the Sharpe ratio are all NaN; nothing is raised. *)
Theorem statistics_of_no_data (s : Series) (risk_free_rate : float64)
  (annualize : bool) :
  dropna s = [] ->
  MarketAnalytics.compute_mean s = Returned NaN /\
  MarketAnalytics.compute_volatility s annualize = NaN /\
  value (MarketAnalytics.compute_sharpe_ratio s risk_free_rate annualize)
    = NaN.
Proof.
  intros Hnone.
  assert (Hmean : nanmean s = NaN) by (unfold nanmean; now rewrite Hnone).
  assert (Hstd : nanstd 0 s = NaN)
    by (unfold nanstd, nanvar; now rewrite Hnone).
  unfold MarketAnalytics.compute_mean, MarketAnalytics.compute_volatility,
    MarketAnalytics.compute_sharpe_ratio.
  rewrite Hmean, Hstd. destruct annualize; repeat split; reflexivity.
Qed.

Lemma statistics_of_no_data_witness :
  MarketAnalytics.compute_mean [NaN; NaN] = Returned NaN /\
  MarketAnalytics.compute_volatility [NaN; NaN] true = NaN /\
  value (MarketAnalytics.compute_sharpe_ratio [NaN; NaN] (Fin 0.02) true)
    = NaN.
Proof.
  apply (statistics_of_no_data [NaN; NaN] (Fin 0.02) true). reflexivity.
Defined.

Lemma Rsum_sq_zero (f : R -> R) (l : list R) :
  Rsum (map (fun x => f x * f x) l) = 0 -> Forall (fun x => f x = 0) l.
Proof.
  induction l as [|x l IH]; intros Hz; [constructor|].
  simpl in Hz.
  pose proof (Rsum_sq_nonneg f l) as Hl.
  pose proof (Rle_0_sqr (f x)) as Hx. unfold Rsqr in Hx.
  constructor.
  - apply Rsqr_0_uniq. unfold Rsqr. lra.
  - apply IH. lra.
Qed.

Lemma Rsum_constant (l : list R) (c : R) :
  (forall x, In x l -> x = c) -> Rsum l = INR (length l) * c.
Proof.
  induction l as [|x l IH]; intros Hall.
  - simpl. lra.
  - change (length (x :: l)) with (S (length l)). rewrite S_INR.
    simpl Rsum. rewrite IH by (intros y Hy; apply Hall; now right).
    rewrite (Hall x) by (now left). lra.
Qed.

Lemma population_std_zero_iff (l : list R) :
  l <> [] ->
  population_std l = 0 <-> (forall x y, In x l -> In y l -> x = y).
Proof.
  intros Hne.
  pose proof (INR_length_pos l Hne) as Hn.
  pose proof (Rinv_0_lt_compat _ Hn) as Hinv.
  assert (Hsum : 0 <= sum_sq_dev l)
    by (unfold sum_sq_dev; apply (Rsum_sq_nonneg (fun x => x - Rmean l))).
  split.
  - intros Hz. unfold population_std in Hz.
    apply sqrt_eq_0 in Hz; [|unfold Rdiv; nra].
    assert (Hs : sum_sq_dev l = 0).
    { unfold Rdiv in Hz. apply Rmult_integral in Hz.
      destruct Hz as [Hz | Hz]; [exact Hz | lra]. }
    pose proof (Rsum_sq_zero (fun x => x - Rmean l) l Hs) as Hall.
    rewrite Forall_forall in Hall.
    intros x y Hx Hy. pose proof (Hall x Hx). pose proof (Hall y Hy).
    cbv beta in *. lra.
  - intros Heq. destruct l as [|c t]; [congruence|].
    assert (Hall : forall x, In x (c :: t) -> x = c)
      by (intros x Hx; apply Heq; [exact Hx | now left]).
    assert (Hmean : Rmean (c :: t) = c).
    { unfold Rmean. rewrite (Rsum_constant _ c Hall). field. lra. }
    unfold population_std, sum_sq_dev. rewrite Hmean.
    rewrite (Rsum_constant _ 0).
    + rewrite Rmult_0_r. unfold Rdiv. rewrite Rmult_0_l. apply sqrt_0.
    + intros x Hx. apply in_map_iff in Hx. destruct Hx as (y & <- & Hy).
      rewrite (Hall y Hy). ring.
Qed.

Lemma compute_volatility_population_std_aux (l : list R) :
  l <> [] ->
  MarketAnalytics.compute_volatility (finite l) false
    = Fin (population_std l) /\
  MarketAnalytics.compute_volatility (finite l) true
    = Fin (population_std l * sqrt 252).
Proof.
  intros Hne. unfold MarketAnalytics.compute_volatility.
  rewrite (nanstd0_finite l Hne), fsqrt_252. split; reflexivity.
Qed.

Lemma sqrt_252_pos : 0 < sqrt 252.
Proof. apply sqrt_lt_R0. lra. Qed.



(** X11.  On non-empty finite returns with a nonzero standard deviation the
    Sharpe ratio is [(mean * 252 - rf) / (std * sqrt 252)] when annualized
    and [(mean - rf) / std] otherwise, [std] being the population standard
    deviation; the division raises no floating-point exception. *)
Theorem compute_sharpe_ratio_formula (l : list R) (rf : R) :
  l <> [] ->
  population_std l <> 0 ->
  MarketAnalytics.compute_sharpe_ratio (finite l) (Fin rf) true
    = (Fin ((Rmean l * 252 - rf) / (population_std l * sqrt 252)), []) /\
  MarketAnalytics.compute_sharpe_ratio (finite l) (Fin rf) false
    = (Fin ((Rmean l - rf) / population_std l), []).
Proof.
  intros Hne Hstd. unfold MarketAnalytics.compute_sharpe_ratio.
  rewrite (nanmean_finite l Hne), (nanstd0_finite l Hne), fsqrt_252.
  cbv zeta. cbn [fmul feqb].
  pose proof sqrt_252_pos as H252.
  assert (Hprod : population_std l * sqrt 252 <> 0).
  { intros Hz. apply Rmult_integral in Hz. destruct Hz; lra. }
  rewrite !Reqb_neq by assumption.
  unfold fdivT. rewrite !fsub_fin.
  rewrite !fdiv_fin, !fdiv_raises_fin by assumption.
  split; reflexivity.
Qed.

Lemma compute_sharpe_ratio_formula_witness :
  MarketAnalytics.compute_sharpe_ratio (finite [1; 3]) (Fin 0.02) true
    = (Fin ((Rmean [1; 3] * 252 - 0.02)
            / (population_std [1; 3] * sqrt 252)), []) /\
  MarketAnalytics.compute_sharpe_ratio (finite [1; 3]) (Fin 0.02) false
    = (Fin ((Rmean [1; 3] - 0.02) / population_std [1; 3]), []).
Proof.
  apply (compute_sharpe_ratio_formula [1; 3] 0.02).
  - discriminate.
  - intros Hz.
    apply (proj1 (population_std_zero_iff [1; 3] ltac:(discriminate))) with
      (x := 1) (y := 3) in Hz; [lra | now left | right; now left].
Defined.

(** ** Maximum drawdown is a fraction of the peak *)

Lemma fold_Rmin_In (l : list R) (m : R) : In (fold_left Rmin l m) (m :: l).
Proof.
  revert m. induction l as [|x l IH]; intros m; [now left|].
  simpl fold_left. destruct (IH (Rmin m x)) as [Heq | Hin].
  - unfold Rmin in Heq at 1. destruct (Rle_dec m x).
    + left. exact Heq.
    + right. left. exact Heq.
  - right. right. exact Hin.
Qed.

Lemma Rminimum_In (l : list R) : l <> [] -> In (Rminimum l) l.
Proof.
  destruct l as [|x t]; [congruence|]. intros _. apply fold_Rmin_In.
Qed.

Lemma max_drawdown_spec_above_minus_one (cs : list R) :
  cs <> [] -> Forall (fun c => 0 < c) cs -> -1 < max_drawdown_spec cs.
Proof.
  intros Hne Hpos. unfold max_drawdown_spec.
  assert (Hin : In (Rminimum (map (drawdown_at cs) (seq 0 (length cs))))
                   (map (drawdown_at cs) (seq 0 (length cs)))).
  { apply Rminimum_In. destruct cs; [congruence | discriminate]. }
  apply in_map_iff in Hin. destruct Hin as (i & <- & Hi).
  apply in_seq in Hi.
  assert (Hi' : (i < length cs)%nat) by lia.
  pose proof (prefix_max_pos cs i Hpos Hi') as Hm.
  assert (Hc : 0 < nth i cs 0).
  { rewrite Forall_forall in Hpos. apply Hpos. now apply nth_In. }
  unfold drawdown_at.
  pose proof (Rinv_0_lt_compat _ Hm) as Hinv.
  replace ((nth i cs 0 - prefix_max cs i) / prefix_max cs i)
    with (nth i cs 0 * / prefix_max cs i - 1) by (field; lra).
  nra.
Qed.



(** ** Prices are recovered from returns *)

Lemma firstn_S_nth {A : Type} (l : list A) (i : nat) (d : A) :
  (i < length l)%nat -> firstn (S i) l = firstn i l ++ [nth i l d].
Proof.
  revert i. induction l as [|x l IH]; intros i Hi; simpl in Hi; [lia|].
  destruct i as [|i]; [reflexivity|].
  cbn [firstn nth app]. f_equal. apply IH. lia.
Qed.

Lemma Rprod_snoc (l : list R) (x : R) : Rprod (l ++ [x]) = Rprod l * x.
Proof.
  unfold Rprod. induction l as [|y l IH]; simpl.
  - lra.
  - rewrite IH. ring.
Qed.

Lemma returns_spec_nth (cs : list R) (i : nat) :
  (S i < length cs)%nat ->
  nth i (returns_spec cs) 0 = nth (S i) cs 0 / nth i cs 0 - 1.
Proof.
  intros Hi. unfold returns_spec.
  rewrite (map_nth_lt _ _ i O 0) by (rewrite length_seq; lia).
  rewrite seq_nth by lia.
  replace (1 + i)%nat with (S i) by lia.
  replace (S i - 1)%nat with i by lia. reflexivity.
Qed.



(** ** The summary report *)

Lemma fold_fmax_finite (l : list R) (m : R) :
  fold_left fmax (finite l) (Fin m) = Fin (fold_left Rmax l m).
Proof.
  revert m. induction l as [|x l IH]; intros m; [reflexivity|].
  unfold finite in *. cbn [map fold_left]. rewrite fmax_fin. apply IH.
Qed.

Lemma nanmax_finite (l : list R) :
  l <> [] -> nanmax (finite l) = Fin (Rmaximum l).
Proof.
  intros Hne. unfold nanmax. rewrite dropna_finite.
  destruct l as [|x t]; [congruence|]. apply fold_fmax_finite.
Qed.

Lemma last_finite (t : list R) (x : R) :
  last (finite t) (Fin x) = Fin (last t x).
Proof.
  revert x. induction t as [|y t IH]; intros x; [reflexivity|].
  unfold finite in *. cbn [map].
  destruct t as [|z t]; [reflexivity|].
  change (last (Fin y :: map Fin (z :: t)) (Fin x))
    with (last (map Fin (z :: t)) (Fin x)).
  change (last (y :: z :: t) x) with (last (z :: t) x).
  apply IH.
Qed.

Lemma iloc_last_finite (x : R) (t : list R) :
  iloc_last (finite (x :: t)) = Some (Fin (last t x)).
Proof. unfold iloc_last, finite. cbn [map]. f_equal. apply last_finite. Qed.

(** On finite returns the Sharpe ratio raises no floating-point exception:
    either the guard returns 0.0 or the divisor is a nonzero number. *)
Lemma sharpe_no_exception_finite (l : list R) (rf : R) (annualize : bool) :
  raised (MarketAnalytics.compute_sharpe_ratio (finite l) (Fin rf) annualize)
  = [].
Proof.
  unfold MarketAnalytics.compute_sharpe_ratio. cbv zeta.
  destruct l as [|x t].
  - destruct annualize; reflexivity.
  - rewrite (nanmean_finite (x :: t)), (nanstd0_finite (x :: t))
      by discriminate.
    rewrite fsqrt_252.
    set (m := Rmean (x :: t)). set (s := population_std (x :: t)).
    destruct annualize; cbn [fmul feqb]; unfold Reqb.
    + destruct (Req_dec_T (s * sqrt 252) 0) as [Hz | Hnz]; [reflexivity|].
      unfold fdivT, raised. cbn [snd]. rewrite fsub_fin.
      now apply fdiv_raises_fin.
    + destruct (Req_dec_T s 0) as [Hz | Hnz]; [reflexivity|].
      unfold fdivT, raised. cbn [snd]. rewrite fsub_fin.
      now apply fdiv_raises_fin.
Qed.

(** The report of a frame whose closes are positive finite numbers. *)
Lemma generate_summary_report_finite (str : option Timestamp -> string)
  (df : DataFrame) (symbol : string)
  (x : R) (t : list R) :
  Close df = finite (x :: t) ->
  Forall (fun c => 0 < c) (x :: t) ->
  let cs := x :: t in
  let returns := finite (returns_spec cs) in
  MarketAnalytics.generate_summary_report str df symbol
  = (ReportReturned
       (mkSummaryReport
          symbol
          (str (date_min (Date df)) ++ " to " ++ str (date_max (Date df)))%string
          (length cs)
          (Fin (Rmean cs))
          (nanmean returns)
          (MarketAnalytics.compute_volatility returns false)
          (MarketAnalytics.compute_volatility returns true)
          (value (MarketAnalytics.compute_sharpe_ratio returns (Fin 0.02)
                                                       true))
          (Fin (max_drawdown_spec cs))
          (Fin (Rminimum cs))
          (Fin (Rmaximum cs))
          (Fin ((last t x / x - 1) * 100))),
     []).
Proof.
  intros Hclose Hpos cs returns. subst returns cs.
  assert (Hnz : Forall (fun c => c <> 0) (x :: t)).
  { apply Forall_forall. intros c Hc. rewrite Forall_forall in Hpos.
    specialize (Hpos c Hc). lra. }
  assert (Hx : x <> 0) by (inversion Hnz; assumption).
  unfold MarketAnalytics.generate_summary_report.
  rewrite (compute_returns_finite df ColClose (x :: t) Hclose
             ltac:(simpl; lia) Hnz).
  set (returns := finite (returns_spec (x :: t))).
  unfold MarketAnalytics.compute_mean.
  rewrite (compute_max_drawdown_finite df ColClose (x :: t) Hclose
             ltac:(discriminate) Hpos).
  rewrite Hclose.
  rewrite (nanmean_finite (x :: t)) by discriminate.
  rewrite (nanmin_finite (x :: t)), (nanmax_finite (x :: t)) by discriminate.
  rewrite iloc_last_finite.
  cbn [iloc_first finite map].
  pose proof (sharpe_no_exception_finite (returns_spec (x :: t)) 0.02 true)
    as Hraised.
  fold returns in Hraised.
  destruct (MarketAnalytics.compute_sharpe_ratio returns (Fin 0.02) true)
    as [sr tr].
  cbn [raised snd] in Hraised. subst tr.
  unfold bind, ret, fdivT, value. cbn [fst snd app].
  rewrite fdiv_fin, fdiv_raises_fin by exact Hx.
  change (Fin x :: map Fin t) with (finite (x :: t)).
  rewrite finite_length. reflexivity.
Qed.

(** X14.  On a frame with no rows [generate_summary_report] raises
    [IndexError] (from [df['Close'].iloc[-1]]), after every other entry has
    been computed. *)
Theorem generate_summary_report_empty (str : option Timestamp -> string)
  (df : DataFrame) (symbol : string) :
  Close df = [] ->
  value (MarketAnalytics.generate_summary_report str df symbol)
  = ReportIndexError.
Proof.
  intros Hclose. unfold MarketAnalytics.generate_summary_report,
    MarketAnalytics.compute_returns, MarketAnalytics.compute_max_drawdown.
  cbn [column]. rewrite Hclose. reflexivity.
Qed.

Lemma generate_summary_report_empty_witness :
  value (MarketAnalytics.generate_summary_report example_timestamp_str
           (close_frame []) "NONE")
  = ReportIndexError.
Proof.
  apply (generate_summary_report_empty example_timestamp_str
           (close_frame []) "NONE").
  reflexivity.
Defined.

Lemma Rmean_singleton (c : R) : Rmean [c] = c.
Proof. unfold Rmean. simpl. field. Qed.

Lemma max_drawdown_spec_singleton (c : R) :
  0 < c -> max_drawdown_spec [c] = 0.
Proof.
  intros Hc. apply max_drawdown_spec_zero.
  - discriminate.
  - repeat constructor. exact Hc.
  - intros i j Hij. simpl in Hij.
    replace i with O by lia. replace j with O by lia. lra.
Qed.

(** X15.  On a frame with a single row of positive close [c] the report is
    returned: mean, minimum and maximum price are [c], total return and
    maximum drawdown are 0, and the four fields derived from the (empty)
    return series, mean daily return, both volatilities and the Sharpe
    ratio, are NaN. *)
Theorem generate_summary_report_one_row (str : option Timestamp -> string)
  (df : DataFrame) (symbol : string)
  (c : R) :
  Close df = [Fin c] ->
  0 < c ->
  exists r,
    MarketAnalytics.generate_summary_report str df symbol
      = (ReportReturned r, []) /\
    total_days r = 1%nat /\
    mean_price r = Fin c /\ min_price r = Fin c /\ max_price r = Fin c /\
    total_return r = Fin 0 /\ max_drawdown r = Fin 0 /\
    mean_daily_return r = NaN /\
    volatility_daily r = NaN /\ volatility_annual r = NaN /\
    sharpe_ratio r = NaN.
Proof.
  intros Hclose Hc.
  pose proof (generate_summary_report_finite str df symbol c [] Hclose
                ltac:(repeat constructor; exact Hc)) as Hrep.
  cbv zeta in Hrep. eexists. split; [exact Hrep|].
  cbn [total_days mean_price min_price max_price total_return max_drawdown
       mean_daily_return volatility_daily volatility_annual sharpe_ratio].
  rewrite Rmean_singleton, (max_drawdown_spec_singleton c Hc).
  repeat split.
  cbn [last]. f_equal. field. lra.
Qed.

Lemma generate_summary_report_one_row_witness :
  exists r,
    MarketAnalytics.generate_summary_report example_timestamp_str
      (close_frame [Fin 100]) "ONE"
      = (ReportReturned r, []) /\
    total_days r = 1%nat /\
    mean_price r = Fin 100 /\ min_price r = Fin 100 /\
    max_price r = Fin 100 /\
    total_return r = Fin 0 /\ max_drawdown r = Fin 0 /\
    mean_daily_return r = NaN /\
    volatility_daily r = NaN /\ volatility_annual r = NaN /\
    sharpe_ratio r = NaN.
Proof.
  apply (generate_summary_report_one_row example_timestamp_str
           (close_frame [Fin 100]) "ONE" 100).
  - reflexivity.
  - lra.
Defined.

Lemma last_In {A : Type} (t : list A) (x : A) : In (last t x) (x :: t).
Proof.
  induction t as [|y t IH]; [now left|].
  destruct t as [|z t]; [right; now left|].
  change (last (y :: z :: t) x) with (last (z :: t) x).
  destruct IH as [Heq | Hin]; [left; exact Heq | right; right; exact Hin].
Qed.



(** ** The business-day calendar *)

Lemma us_per_day_pos : (0 < us_per_day)%Z.
Proof. reflexivity. Qed.

Lemma weekday_range (t : Timestamp) : (0 <= weekday t < 7)%Z.
Proof. unfold weekday. apply Z.mod_pos_bound. lia. Qed.

Lemma weekday_add_days (t : Timestamp) (k : Z) :
  weekday (t + k * us_per_day)%Z = ((weekday t + k) mod 7)%Z.
Proof.
  unfold weekday. rewrite Z.div_add by (pose proof us_per_day_pos; lia).
  rewrite Z.add_mod_idemp_l by lia. f_equal. lia.
Qed.

Lemma rollforward_business (t : Timestamp) : is_business_day (rollforward t).
Proof.
  unfold is_business_day, rollforward.
  pose proof (weekday_range t) as Hr.
  destruct (Z.eqb_spec (weekday t) 5) as [H5 | H5].
  - rewrite (weekday_add_days t 2), H5. reflexivity.
  - destruct (Z.eqb_spec (weekday t) 6) as [H6 | H6].
    + replace (t + us_per_day)%Z with (t + 1 * us_per_day)%Z by lia.
      rewrite (weekday_add_days t 1), H6. reflexivity.
    + lia.
Qed.

Lemma rollforward_ge (t : Timestamp) : (t <= rollforward t)%Z.
Proof.
  unfold rollforward. pose proof us_per_day_pos.
  destruct (weekday t =? 5)%Z; [lia|].
  destruct (weekday t =? 6)%Z; lia.
Qed.

(** The weekday after a business day: Monday after Friday, else the next. *)
Lemma weekday_next_business_day (t : Timestamp) :
  is_business_day t ->
  weekday (next_business_day t)
  = (if (weekday t =? 4)%Z then 0 else weekday t + 1)%Z.
Proof.
  unfold is_business_day, next_business_day. intros Hb.
  pose proof (weekday_range t) as Hr.
  destruct (Z.eqb_spec (weekday t) 4) as [H4 | H4].
  - rewrite (weekday_add_days t 3), H4. reflexivity.
  - replace (t + us_per_day)%Z with (t + 1 * us_per_day)%Z by lia.
    rewrite (weekday_add_days t 1). apply Z.mod_small. lia.
Qed.

Lemma next_business_day_business (t : Timestamp) :
  is_business_day t -> is_business_day (next_business_day t).
Proof.
  intros Hb. unfold is_business_day.
  rewrite (weekday_next_business_day t Hb).
  unfold is_business_day in Hb.
  destruct (Z.eqb_spec (weekday t) 4); lia.
Qed.

Lemma next_business_day_gt (t : Timestamp) : (t < next_business_day t)%Z.
Proof.
  unfold next_business_day. pose proof us_per_day_pos.
  destruct (weekday t =? 4)%Z; lia.
Qed.

Lemma business_days_length (n : nat) (t : Timestamp) :
  length (business_days n t) = n.
Proof. revert t. induction n as [|n IH]; intros t; simpl; auto. Qed.

Lemma business_days_ge (n : nat) (t : Timestamp) :
  Forall (fun d => (t <= d)%Z) (business_days n t).
Proof.
  revert t. induction n as [|n IH]; intros t; simpl; constructor; [lia|].
  pose proof (next_business_day_gt t) as Hgt.
  eapply Forall_impl; [|apply IH]. cbv beta. intros d Hd. lia.
Qed.

Lemma business_days_business (n : nat) (t : Timestamp) :
  is_business_day t -> Forall is_business_day (business_days n t).
Proof.
  revert t. induction n as [|n IH]; intros t Hb; simpl; constructor;
    [exact Hb|].
  apply IH. now apply next_business_day_business.
Qed.

Lemma business_days_sorted (n : nat) (t : Timestamp) :
  StronglySorted Z.lt (business_days n t).
Proof.
  revert t. induction n as [|n IH]; intros t; simpl; constructor.
  - apply IH.
  - pose proof (next_business_day_gt t) as Hgt.
    eapply Forall_impl; [|apply business_days_ge]. cbv beta.
    intros d Hd. lia.
Qed.

(** After [k] steps from a business day [t] at least [k] days and two more
    for every weekend crossed have passed. *)
Lemma business_days_nth_ge (n : nat) (t : Timestamp) (k : nat) :
  is_business_day t -> (k < n)%nat ->
  (t + (Z.of_nat k + 2 * ((weekday t + Z.of_nat k) / 5)) * us_per_day
   <= nth k (business_days n t) 0)%Z.
Proof.
  revert t k. induction n as [|n IH]; intros t k Hb Hk; [lia|].
  pose proof (weekday_range t) as Hr.
  unfold is_business_day in Hb.
  destruct k as [|k].
  - simpl nth. replace ((weekday t + Z.of_nat 0) / 5)%Z with 0%Z.
    + lia.
    + symmetry. apply Z.div_small. lia.
  - cbn [business_days nth].
    pose proof (IH (next_business_day t) k
                  (next_business_day_business t Hb) ltac:(lia)) as Hstep.
    rewrite (weekday_next_business_day t Hb) in Hstep.
    unfold next_business_day in Hstep |- *.
    unfold us_per_day in *.
    destruct (Z.eqb_spec (weekday t) 4) as [H4 | H4].
    + replace ((weekday t + Z.of_nat (S k)) / 5)%Z
        with ((0 + Z.of_nat k) / 5 + 1)%Z.
      * lia.
      * rewrite H4. replace (4 + Z.of_nat (S k))%Z
          with (0 + Z.of_nat k + 1 * 5)%Z by lia.
        now rewrite Z.div_add by lia.
    + replace (weekday t + Z.of_nat (S k))%Z
        with (weekday t + 1 + Z.of_nat k)%Z by lia.
      lia.
Qed.

(** ** Further properties of the generator *)

Lemma draws_Forall {S A : Type} (step : S -> A * S) (P : A -> Prop) (n : nat)
  (s : S) :
  (forall s', P (fst (step s'))) -> Forall P (fst (draws step n s)).
Proof.
  intros Hstep. revert s. induction n as [|n IH]; intros s; [constructor|].
  simpl. pose proof (Hstep s) as Hx. destruct (step s) as [x s1].
  specialize (IH s1). destruct (draws step n s1) as [xs s2].
  simpl in *. now constructor.
Qed.

Lemma sharpe_zero_std_run (returns : Series) (risk_free_rate : float64)
  (annualize : bool) :
  nanstd 0 returns = Fin 0 ->
  MarketAnalytics.compute_sharpe_ratio returns risk_free_rate annualize
  = (Fin 0, []).
Proof.
  intros Hstd. unfold MarketAnalytics.compute_sharpe_ratio.
  rewrite Hstd, fsqrt_252. cbv zeta.
  replace (feqb (if annualize then fmul (Fin 0) (Fin (sqrt 252)) else Fin 0)
                (Fin 0)) with true; [reflexivity|].
  symmetry. destruct annualize; simpl; apply Reqb_eq; ring.
Qed.

Lemma Rmean_constant (c : R) (n : nat) : Rmean (repeat c (S n)) = c.
Proof.
  unfold Rmean.
  rewrite (Rsum_constant _ c) by (intros x Hx; now apply repeat_spec in Hx).
  pose proof (INR_length_pos (repeat c (S n)) ltac:(discriminate)).
  field. lra.
Qed.

Lemma last_repeat {A : Type} (c : A) (n : nat) : last (repeat c n) c = c.
Proof.
  induction n as [|n IH]; [reflexivity|].
  destruct n as [|n]; [reflexivity|].
  change (last (repeat c (S (S n))) c) with (last (repeat c (S n)) c).
  exact IH.
Qed.

Lemma max_drawdown_spec_constant (c : R) (n : nat) :
  0 < c -> max_drawdown_spec (repeat c (S n)) = 0.
Proof.
  intros Hc. apply max_drawdown_spec_zero.
  - discriminate.
  - apply Forall_forall. intros x Hx. apply repeat_spec in Hx. now subst.
  - intros i j Hij. rewrite repeat_length in Hij.
    rewrite !nth_repeat_lt by lia. lra.
Qed.

(** The report of a frame whose closes are one positive constant. *)
Lemma generate_summary_report_constant (str : option Timestamp -> string)
  (df : DataFrame) (symbol : string)
  (c : R) (k : nat) :
  Close df = finite (repeat c (S (S k))) ->
  0 < c ->
  exists r,
    MarketAnalytics.generate_summary_report str df symbol
      = (ReportReturned r, []) /\
    mean_price r = Fin c /\
    mean_daily_return r = Fin 0 /\
    volatility_daily r = Fin 0 /\ volatility_annual r = Fin 0 /\
    sharpe_ratio r = Fin 0 /\ max_drawdown r = Fin 0 /\
    total_return r = Fin 0.
Proof.
  intros Hclose Hc.
  assert (Hpos : Forall (fun x => 0 < x) (c :: repeat c (S k))).
  { apply Forall_forall. intros x [<- | Hx]; [exact Hc|].
    apply repeat_spec in Hx. now subst. }
  pose proof (generate_summary_report_finite str df symbol c (repeat c (S k))
                Hclose Hpos) as Hrep.
  cbv zeta in Hrep.
  change (c :: repeat c (S k)) with (repeat c (S (S k))) in Hrep.
  rewrite (returns_spec_constant c (S k)) in Hrep by lra.
  assert (Hstd : nanstd 0 (finite (repeat 0 (S k))) = Fin 0).
  { rewrite nanstd0_finite by discriminate. now rewrite population_std_zeros. }
  rewrite (sharpe_zero_std_run _ (Fin 0.02) true Hstd) in Hrep.
  unfold MarketAnalytics.compute_volatility in Hrep.
  rewrite Hstd, fsqrt_252 in Hrep.
  rewrite (nanmean_finite (repeat 0 (S k))) in Hrep by discriminate.
  rewrite (Rmean_constant 0 k), (Rmean_constant c (S k)) in Hrep.
  rewrite (max_drawdown_spec_constant c (S k) Hc), last_repeat in Hrep.
  eexists. split; [exact Hrep|].
  cbn [mean_price mean_daily_return volatility_daily volatility_annual
       sharpe_ratio max_drawdown total_return value fst fmul].
  repeat split; f_equal; try ring. field. lra.
Qed.

(** *** The dictionary of [generate_multiple_stocks] *)

Lemma dict_set_keys {V : Type} (k : string) (v : V) (d : list (string * V))
  (k' : string) :
  In k' (map fst (dict_set k v d)) <-> k' = k \/ In k' (map fst d).
Proof.
  induction d as [|[k0 v0] d IH]; cbn [dict_set map fst In].
  - intuition congruence.
  - destruct (String.eqb_spec k k0) as [-> | Hne]; cbn [map fst In].
    + intuition congruence.
    + rewrite IH. intuition congruence.
Qed.

Lemma dict_set_NoDup {V : Type} (k : string) (v : V) (d : list (string * V)) :
  NoDup (map fst d) -> NoDup (map fst (dict_set k v d)).
Proof.
  induction d as [|[k0 v0] d IH]; cbn [dict_set map fst]; intros Hnd.
  - repeat constructor. intros [].
  - inversion Hnd as [|? ? Hnotin Hnd']; subst.
    destruct (String.eqb_spec k k0) as [-> | Hne]; cbn [map fst].
    + now constructor.
    + constructor; [|now apply IH].
      rewrite dict_set_keys. intuition congruence.
Qed.

Lemma dict_set_Forall {V : Type} (P : string * V -> Prop) (k : string) (v : V)
  (d : list (string * V)) :
  P (k, v) -> Forall P d -> Forall P (dict_set k v d).
Proof.
  intros Hkv Hall. induction Hall as [|[k0 v0] d H0 Hd IH];
    cbn [dict_set].
  - now repeat constructor.
  - destruct (String.eqb k k0); constructor; assumption.
Qed.

Section FetcherFurther.

Variable G : RandomSource.










End FetcherFurther.

(** ** The example generator respects the ranges of its draws *)

Lemma lcg_next_range (s : Z) : (0 <= lcg_next s < 2147483648)%Z.
Proof. unfold lcg_next. apply Z.mod_pos_bound. lia. Qed.

Lemma lcg_sample_range (s : rng_state lcg_source) :
  0 <= fst (random_sample lcg_source s) < 1.
Proof.
  cbn [random_sample lcg_source fst].
  pose proof (lcg_next_range s) as [Hlo Hhi].
  apply IZR_le in Hlo. apply IZR_lt in Hhi.
  split.
  - apply Rmult_le_pos; [exact Hlo|]. left. apply Rinv_0_lt_compat. lra.
  - apply (Rmult_lt_reg_r 2147483648); [lra|].
    unfold Rdiv. rewrite Rmult_assoc, Rinv_l by lra. lra.
Qed.

Lemma lcg_below_range (n : Z) (s : rng_state lcg_source) :
  (0 < n)%Z -> (0 <= fst (random_below lcg_source n s) < n)%Z.
Proof.
  intros Hn. cbn [random_below lcg_source fst]. now apply Z.mod_pos_bound.
Qed.









